(** * User-in-the-Box: the [FixedEye] environment and the tracking evaluation

    A shallow embedding of
    - [UIB/envs/mobl_arms/models/FixedEye.py] (class [FixedEye]: construction,
      [set_ctrl], [get_observation], [reset], [callback],
      [grab_proprioception], [render], [_get_viewer], [dt]) and
    - [UIB/test/evaluate-tracking.py] ([generate_sine_wave],
      [generate_trajectory]).

    Conventions.
    - A float64 is a real number ([R]): rounding, infinities and NaN are not
      modelled, and [x / 0] is Rocq's total division.
    - A one-dimensional numpy array is a [list]; indices are Python integers
      ([Z]), negative ones counting from the end, out-of-range ones raising
      [IndexError].
    - A Python exception is a value of [exn]; a call that may raise returns
      [res A].  A method that mutates [self] is a function
      [self -> res A * self]: what was written before an exception stays
      written.
    - Python sets are [gset Z]; [list(a_set)] is [elements], whose order is as
      unspecified as Python's.
    - The physics engine (mujoco_py) and the effort term are interfaces
      ([MjSim], [EffortTerm]); so are the callbacks and the pixels a viewer
      reads ([Callback], [MjRender]).  A viewer is known by the order of its
      creation, and the calls made on the viewers are logged. *)

From Stdlib Require Import Reals Lra ZArith FunctionalExtensionality.
From stdpp Require Import base gmap sets list strings sorting.

Open Scope R_scope.

(** ** Python: exceptions and results *)
Module Py.

Inductive exn : Set :=
  | AssertionError
  | AttributeError
  | IndexError
  | KeyError
  | ValueError
  | ZeroDivisionError
  | BackendError.

Inductive res (A : Type) : Type :=
  | Ok (a : A)
  | Raise (e : exn).
Arguments Ok {A} a.
Arguments Raise {A} e.

(** Sequencing: [bind m k] runs [m] and, unless it raises, [k] on its
    value. *)
Definition bind {A B} (m : res A) (k : A -> res B) : res B :=
  match m with
  | Ok a => k a
  | Raise e => Raise e
  end.

(** State and exceptions: the state survives a raise. *)
Definition M (S A : Type) : Type := S -> res A * S.

Definition ret {S A} (a : A) : M S A := fun s => (Ok a, s).
Definition bindM {S A B} (m : M S A) (k : A -> M S B) : M S B := fun s =>
  match m s with
  | (Ok a, s') => k a s'
  | (Raise e, s') => (Raise e, s')
  end.

Notation "'let*' x ':=' m 'in' k" := (bind m (fun x => k))
  (at level 10, x pattern, m at level 100, k at level 200).
Notation "'let!' x ':=' m 'in' k" := (bindM m (fun x => k))
  (at level 10, x pattern, m at level 100, k at level 200).
Notation "m ;;; k" := (bindM m (fun _ => k))
  (at level 100, k at level 200, right associativity).

Definition get {S} : M S S := fun s => (Ok s, s).
Definition modify {S} (f : S -> S) : M S unit := fun s => (Ok tt, f s).
Definition lift {S A} (r : res A) : M S A := fun s => (r, s).

(** [assert b] *)
Definition assert (b : bool) : res unit :=
  if b then Ok tt else Raise AssertionError.

#[global] Instance R_eq_dec : EqDecision R := Req_dec_T.

(** [int(x)]: truncation towards zero. *)
Definition int (x : R) : Z :=
  if Rle_dec 0 x then Int_part x else (- Int_part (- x))%Z.

End Py.
Export Py.

(** ** numpy on one-dimensional arrays *)
Module Np.

(** The position an integer index denotes in an array of [n] entries. *)
Definition index (n : nat) (i : Z) : res nat :=
  if decide (0 ≤ i < Z.of_nat n)%Z then Ok (Z.to_nat i)
  else if decide (- Z.of_nat n ≤ i < 0)%Z then Ok (Z.to_nat (Z.of_nat n + i))
  else Raise IndexError.

(** [a[i]] *)
Definition getitem {A} (a : list A) (i : Z) : res A :=
  let* k := index (length a) i in
  match a !! k with Some x => Ok x | None => Raise IndexError end.

(** [a[i] = x] *)
Definition setitem {A} (a : list A) (i : Z) (x : A) : res (list A) :=
  let* k := index (length a) i in Ok (<[k:=x]> a).

(** [a[idx]] for an index list [idx] *)
Fixpoint take {A} (a : list A) (idx : list Z) : res (list A) :=
  match idx with
  | [] => Ok []
  | i :: idx' =>
      let* x := getitem a i in
      let* xs := take a idx' in
      Ok (x :: xs)
  end.

(** Broadcasting a one-dimensional value to [n] entries. *)
Definition broadcast_to {A} (n : nat) (v : list A) : res (list A) :=
  if decide (length v = n) then Ok v
  else match v with
       | [x] => Ok (replicate n x)
       | _ => Raise ValueError
       end.

Fixpoint put_loop {A} (a : list A) (ivs : list (Z * A)) : res (list A) :=
  match ivs with
  | [] => Ok a
  | (i, v) :: ivs' => let* a' := setitem a i v in put_loop a' ivs'
  end.

(** [a[idx] = vs] for an index list [idx] *)
Definition put {A} (a : list A) (idx : list Z) (vs : list A) : res (list A) :=
  let* vs' := broadcast_to (length idx) vs in put_loop a (zip idx vs').

(** [a[:] = v] *)
Definition assign {A} (a : list A) (v : list A) : res (list A) :=
  broadcast_to (length a) v.

(** [a.fill(x)] *)
Definition fill {A} (a : list A) (x : A) : list A := replicate (length a) x.

(** An elementwise binary operation on two arrays, with broadcasting. *)
Definition binop {A B C} (f : A -> B -> C) (x : list A) (y : list B)
  : res (list C) :=
  let n := if decide (length x = 1%nat) then length y else length x in
  let* x' := broadcast_to n x in
  let* y' := broadcast_to n y in
  Ok (zip_with f x' y').

Definition add : list R -> list R -> res (list R) := binop Rplus.
Definition sub : list R -> list R -> res (list R) := binop Rminus.
Definition div : list R -> list R -> res (list R) := binop Rdiv.

(** [np.clip(a, lo, hi)] is [minimum(maximum(a, lo), hi)]. *)
Definition clip1 (lo hi x : R) : R := Rmin (Rmax x lo) hi.
Definition clip (a : list R) (lo hi : R) : list R := clip1 lo hi <$> a.

(** [np.unique(a)]: the sorted distinct entries. *)
Definition unique (a : list Z) : list Z := merge_sort Z.le (remove_dups a).

End Np.

(** ** The simulation backend (mujoco_py) *)
Module Mj.

(** One row of the model's equality-constraint arrays [eq_type],
    [eq_obj1id], [eq_obj2id], [eq_active] and [eq_data], which all have
    [neq] rows. *)
Record eq_row : Type := EqRow {
  eq_type : Z;
  eq_obj1id : Z;
  eq_obj2id : Z;
  eq_active : Z;
  eq_data : list R
}.

Record mjModel : Type := MjModel {
  njnt : nat;
  na : nat;
  opt_timestep : R;
  eqs : list eq_row;
  jnt_range : list (R * R);
  joint_names : list (option string);
  geom_names : list (option string);
  camera_names : list (option string);
  cam_pos : list (R * R * R);
  cam_quat : list (R * R * R * R)
}.

Record mjData : Type := MjData {
  qpos : list R;
  qvel : list R;
  qacc : list R;
  act : list R;
  ctrl : list R;
  geom_xpos : list (R * R * R)
}.

Definition with_qpos (d : mjData) (v : list R) : mjData :=
  MjData v (qvel d) (qacc d) (act d) (ctrl d) (geom_xpos d).
Definition with_qvel (d : mjData) (v : list R) : mjData :=
  MjData (qpos d) v (qacc d) (act d) (ctrl d) (geom_xpos d).
Definition with_act (d : mjData) (v : list R) : mjData :=
  MjData (qpos d) (qvel d) (qacc d) v (ctrl d) (geom_xpos d).
Definition with_ctrl (d : mjData) (v : list R) : mjData :=
  MjData (qpos d) (qvel d) (qacc d) (act d) v (geom_xpos d).

Definition with_eqs (m : mjModel) (v : list eq_row) : mjModel :=
  MjModel (njnt m) (na m) (opt_timestep m) v (jnt_range m) (joint_names m)
    (geom_names m) (camera_names m) (cam_pos m) (cam_quat m).
Definition with_jnt_range (m : mjModel) (v : list (R * R)) : mjModel :=
  MjModel (njnt m) (na m) (opt_timestep m) (eqs m) v (joint_names m)
    (geom_names m) (camera_names m) (cam_pos m) (cam_quat m).
Definition with_cam_pos (m : mjModel) (v : list (R * R * R)) : mjModel :=
  MjModel (njnt m) (na m) (opt_timestep m) (eqs m) (jnt_range m)
    (joint_names m) (geom_names m) (camera_names m) v (cam_quat m).
Definition with_cam_quat (m : mjModel) (v : list (R * R * R * R)) : mjModel :=
  MjModel (njnt m) (na m) (opt_timestep m) (eqs m) (jnt_range m)
    (joint_names m) (geom_names m) (camera_names m) (cam_pos m) v.
Definition with_eq_data (r : eq_row) (v : list R) : eq_row :=
  EqRow (eq_type r) (eq_obj1id r) (eq_obj2id r) (eq_active r) v.

(** [eq_active.astype(bool)] *)
Definition astype_bool (z : Z) : bool := negb (z =? 0)%Z.

(** [mjEQ_JOINT], the type of a constraint that couples two joints *)
Definition mjEQ_JOINT : Z := 2.

(** [model.joint_id2name(id)]: the name of joint [id] ([None] for a joint
    without a name); [ValueError] when [id] is not a joint id. *)
Definition id2name (names : list (option string)) (id : Z)
  : res (option string) :=
  if decide (0 ≤ id)%Z then
    match names !! Z.to_nat id with
    | Some n => Ok n
    | None => Raise ValueError
    end
  else Raise ValueError.

(** [model.joint_name2id(name)]: names are unique in a compiled model;
    [ValueError] when no joint has this name. *)
Definition name2id (names : list (option string)) (name : string) : res Z :=
  match list_find (fun n => n = Some name) names with
  | Some (i, _) => Ok (Z.of_nat i)
  | None => Raise ValueError
  end.

(** [model._camera_name2id[name]], a dictionary *)
Definition camera_name2id (m : mjModel) (name : string) : res Z :=
  match name2id (camera_names m) name with
  | Ok i => Ok i
  | Raise _ => Raise KeyError
  end.

Definition joint_id2name (m : mjModel) := id2name (joint_names m).
Definition joint_name2id (m : mjModel) := name2id (joint_names m).

(** [data.get_geom_xpos(name)] *)
Definition get_geom_xpos (m : mjModel) (d : mjData) (name : string)
  : res (list R) :=
  let* i := name2id (geom_names m) name in
  let* (x, y, z) := Np.getitem (geom_xpos d) i in
  Ok [x; y; z].

(** A rendered frame: rows of pixels, three colour channels each, and the
    depth buffer of the same frame. *)
Definition rgb_image : Type := list (list (R * R * R)).
Definition depth_image : Type := list (list R).

(** What the environment calls on [MjSim]. *)
Class MjSim : Type := {
  (** [sim.reset()] *)
  sim_reset : mjModel -> mjData -> mjData;
  (** [sim.forward()] *)
  sim_forward : mjModel -> mjData -> mjData;
  (** [sim.render(width, height, camera_name, depth=True)] *)
  sim_render : mjModel -> mjData -> nat -> nat -> string ->
               res (rgb_image * depth_image)
}.

(** The arrays of [mjData] keep their sizes. *)
Definition same_sizes (d d' : mjData) : Prop :=
  length (qpos d') = length (qpos d) ∧
  length (qvel d') = length (qvel d) ∧
  length (qacc d') = length (qacc d) ∧
  length (act d') = length (act d) ∧
  length (ctrl d') = length (ctrl d) ∧
  length (geom_xpos d') = length (geom_xpos d).

Class MjSimLaws `{MjSim} : Prop := {
  sim_reset_sizes m d : same_sizes d (sim_reset m d);
  sim_forward_sizes m d : same_sizes d (sim_forward m d);
  sim_render_shape m d w h cam rgb depth :
    sim_render m d w h cam = Ok (rgb, depth) ->
    Forall2 (fun r z => length r = length z) rgb depth
}.

End Mj.
Export Mj.

(** ** The effort term ([UIB.utils.effort_terms]) *)
Class EffortTerm (E : Type) : Type := {
  (** [effort_terms.Zero()] *)
  effort_zero : E;
  (** [effort_term.reset()] *)
  effort_reset : E -> E
}.

(** ** numpy's random generator *)
Module Rng.

(** A generator is the sequence of its unit draws, each in [[0, 1)], and the
    number of draws made so far. *)
Record t : Type := Make {
  draws : nat -> R;
  cursor : nat
}.


(** [rng.uniform(low, high)] for scalars: [low + (high - low) * u]. *)
Definition uniform1 (g : t) (low high : R) : R * t :=
  (low + (high - low) * draws g (cursor g), Make (draws g) (S (cursor g))).

(** [rng.uniform(low=lows, high=highs)] for arrays of the same length. *)
Fixpoint uniform (g : t) (lh : list (R * R)) : list R * t :=
  match lh with
  | [] => ([], g)
  | (l, h) :: lh' =>
      let '(x, g') := uniform1 g l h in
      let '(xs, g'') := uniform g' lh' in
      (x :: xs, g'')
  end.

End Rng.

(** ** class FixedEye *)
Module FixedEye.

(** [np.round]: to the nearest integer, halves to the even one. *)
Definition np_round (x : R) : R :=
  let f := Int_part x in
  let d := x - IZR f in
  if Rlt_dec d (1/2) then IZR f
  else if Rlt_dec (1/2) d then IZR (f + 1)
  else if Z.even f then IZR f else IZR (f + 1).

(** The keyword arguments [__init__] reads; [None] is an absent key. *)
Record kwargs (E : Type) : Type := Kwargs {
  kw_action_sample_freq : option R;
  kw_effort_term : option E;
  kw_render_observations : option bool;
  kw_ocular_image_height : option nat;
  kw_ocular_image_width : option nat
}.
Arguments Kwargs {E}.
Arguments kw_action_sample_freq {E}.
Arguments kw_effort_term {E}.
Arguments kw_render_observations {E}.
Arguments kw_ocular_image_height {E}.
Arguments kw_ocular_image_width {E}.

(** [kwargs.get(key, default)] *)
Definition kwargs_get {A} (v : option A) (default : A) : A :=
  match v with Some x => x | None => default end.

(** The attributes of an instance.  [self.model] and [self.sim.model] are one
    object ([model]); [self.sim.data] is [data].  [eq_ID_shoulder1_r2] is set
    by the patch variants only. *)
Record t (E : Type) : Type := Make {
  shoulder_variant : string;
  action_sample_freq : R;
  timestep : R;
  frame_skip : Z;
  rng : Rng.t;
  model : mjModel;
  data : mjData;
  dependent_joints : list Z;
  independent_joints : list Z;
  eq_ID_shoulder1_r2 : option nat;
  action_space : list R * list R;
  effort_term : E;
  render_observations : bool;
  ocular_image_height : nat;
  ocular_image_width : nat;
  video_frames_per_second : Z
}.
Arguments Make {E}.
Arguments shoulder_variant {E}.
Arguments action_sample_freq {E}.
Arguments timestep {E}.
Arguments frame_skip {E}.
Arguments rng {E}.
Arguments model {E}.
Arguments data {E}.
Arguments dependent_joints {E}.
Arguments independent_joints {E}.
Arguments eq_ID_shoulder1_r2 {E}.
Arguments action_space {E}.
Arguments effort_term {E}.
Arguments render_observations {E}.
Arguments ocular_image_height {E}.
Arguments ocular_image_width {E}.
Arguments video_frames_per_second {E}.

(** What [get_observation] returns: the dictionary with the keys
    [proprioception] and [visual]; an image has rows of pixels of four
    channels. *)
Record observation : Type := Observation {
  proprioception : list R;
  visual : option (list (list (list R)))
}.

Section Methods.
Context {E : Type} `{!EffortTerm E} `{!MjSim}.

Definition with_rng (self : t E) (v : Rng.t) : t E :=
  Make (shoulder_variant self) (action_sample_freq self) (timestep self)
    (frame_skip self) v (model self) (data self) (dependent_joints self)
    (independent_joints self) (eq_ID_shoulder1_r2 self) (action_space self)
    (effort_term self) (render_observations self) (ocular_image_height self)
    (ocular_image_width self) (video_frames_per_second self).
Definition with_model (self : t E) (v : mjModel) : t E :=
  Make (shoulder_variant self) (action_sample_freq self) (timestep self)
    (frame_skip self) (rng self) v (data self) (dependent_joints self)
    (independent_joints self) (eq_ID_shoulder1_r2 self) (action_space self)
    (effort_term self) (render_observations self) (ocular_image_height self)
    (ocular_image_width self) (video_frames_per_second self).
Definition with_data (self : t E) (v : mjData) : t E :=
  Make (shoulder_variant self) (action_sample_freq self) (timestep self)
    (frame_skip self) (rng self) (model self) v (dependent_joints self)
    (independent_joints self) (eq_ID_shoulder1_r2 self) (action_space self)
    (effort_term self) (render_observations self) (ocular_image_height self)
    (ocular_image_width self) (video_frames_per_second self).
Definition with_effort_term (self : t E) (v : E) : t E :=
  Make (shoulder_variant self) (action_sample_freq self) (timestep self)
    (frame_skip self) (rng self) (model self) (data self)
    (dependent_joints self) (independent_joints self)
    (eq_ID_shoulder1_r2 self) (action_space self) v
    (render_observations self) (ocular_image_height self)
    (ocular_image_width self) (video_frames_per_second self).

(** The fingertip geom *)
Definition fingertip : string := "hand_2distph".

(** [shoulder_variant.startswith("patch")] *)
Definition is_patch (variant : string) : bool := String.prefix "patch" variant.

(** *** Construction *)

(** [np.unique(model.eq_obj1id[model.eq_active.astype(bool)])] *)
Definition dependent_of (m : mjModel) : list Z :=
  Np.unique (eq_obj1id <$> filter (fun r => astype_bool (eq_active r)) (eqs m)).

(** [list(set(np.arange(model.njnt)) - set(dependent_joints))] *)
Definition independent_of (m : mjModel) (dependent : list Z) : list Z :=
  elements ((list_to_set (seqZ 0 (Z.of_nat (njnt m))) : gset Z)
            ∖ list_to_set dependent).

(** The condition of the comprehension that looks for the shoulder
    constraint, for one row; [and] evaluates the names only when the three
    tests before them hold. *)
Definition shoulder_row (m : mjModel) (r : eq_row) : res bool :=
  if bool_decide (eq_type r = mjEQ_JOINT)
     && bool_decide (0 < eq_obj1id r)%Z
     && bool_decide (eq_obj2id r ≠ 0%Z)
  then
    let* n1 := joint_id2name m (eq_obj1id r) in
    let* n2 := joint_id2name m (eq_obj2id r) in
    Ok (bool_decide (({[n1; n2]} : gset (option string))
                     = {[Some "shoulder1_r2"; Some "elv_angle"]}))
  else Ok false.

(** [[idx for idx, i in enumerate(rows) if ...]], counting from [idx] *)
Fixpoint shoulder_rows (m : mjModel) (idx : nat) (rows : list eq_row)
  : res (list nat) :=
  match rows with
  | [] => Ok []
  | r :: rows' =>
      let* b := shoulder_row m r in
      let* rest := shoulder_rows m (S idx) rows' in
      Ok (if b then idx :: rest else rest)
  end.

(** Lines 42-51: the index of the shoulder constraint, for a patch variant. *)
Definition resolve_shoulder (variant : string) (m : mjModel)
  : res (option nat) :=
  if is_patch variant then
    let* ids := shoulder_rows m 0 (eqs m) in
    let* _ := assert (bool_decide (length ids = 1%nat)) in
    match ids with
    | i :: _ => Ok (Some i)
    | [] => Raise IndexError
    end
  else Ok None.

(** [self.frame_skip = int(1/(self.timestep*self.action_sample_freq))] *)
Definition frame_skip_of (timestep freq : R) : res Z :=
  if decide (timestep * freq = 0) then Raise ZeroDivisionError
  else Ok (int (1 / (timestep * freq))).

(** [int(np.round(1.0 / (model.opt.timestep * frame_skip)))] *)
Definition frames_per_second_of (m : mjModel) (skip : Z) : res Z :=
  if decide (opt_timestep m * IZR skip = 0) then Raise ZeroDivisionError
  else Ok (int (np_round (1 / (opt_timestep m * IZR skip)))).

(** [__init__(self, shoulder_variant, **kwargs)].  [g] is the generator
    [np.random.default_rng()] returns, [m] the model loaded from [xml_file]
    and [d] the data of the new [MjSim].  The viewers, the reward function
    and the callbacks hold nothing the methods below read and are left
    out. *)
Definition init (variant : string) (kw : kwargs E) (g : Rng.t)
    (m : mjModel) (d : mjData) : res (t E) :=
  let freq := kwargs_get (kw_action_sample_freq kw) 10 in
  let timestep := 0.002 in
  let* skip := frame_skip_of timestep freq in
  let dependent := dependent_of m in
  let independent := independent_of m dependent in
  let* eq_id := resolve_shoulder variant m in
  let space := (replicate (na m) (-1), replicate (na m) 1) in
  let effort := kwargs_get (kw_effort_term kw) effort_zero in
  let render := kwargs_get (kw_render_observations kw) true in
  let height := kwargs_get (kw_ocular_image_height kw) 80%nat in
  let width := kwargs_get (kw_ocular_image_width kw) 120%nat in
  let* fps := frames_per_second_of m skip in
  let* cam := camera_name2id m "for_testing" in
  let* pos := Np.setitem (cam_pos m) cam (1.5, -1.5, 0.9) in
  let m := with_cam_pos m pos in
  let* cam := camera_name2id m "for_testing" in
  let* quat := Np.setitem (cam_quat m) cam (0.6582, 0.6577, 0.2590, 0.2588) in
  let m := with_cam_quat m quat in
  Ok (Make variant freq timestep skip g m d dependent independent eq_id
        space effort render height width fps).

(** *** set_ctrl *)

(** The coefficient of the shoulder constraint at elevation [elv] *)
Definition shoulder_coef (elv : R) : R := - ((PI - 2 * elv) / PI).

(** [sim.data.qpos[sim.model.joint_name2id(name)]] *)
Definition qpos_of (self : t E) (name : string) : res R :=
  let* i := joint_name2id (model self) name in
  Np.getitem (qpos (data self)) i.

(** [self.eq_ID_shoulder1_r2] *)
Definition get_eq_ID (self : t E) : res nat :=
  match eq_ID_shoulder1_r2 self with
  | Some i => Ok i
  | None => Raise AttributeError
  end.

(** [eq_data[i, col] = v] *)
Definition set_eq_data (rows : list eq_row) (i col : nat) (v : R)
  : res (list eq_row) :=
  match rows !! i with
  | Some r =>
      if decide (col < length (eq_data r))%nat
      then Ok (<[i := with_eq_data r (<[col := v]> (eq_data r))]> rows)
      else Raise IndexError
  | None => Raise IndexError
  end.

Definition set_data (f : mjData -> mjData) : M (t E) unit :=
  modify (fun self => with_data self (f (data self))).
Definition set_model (f : mjModel -> mjModel) : M (t E) unit :=
  modify (fun self => with_model self (f (model self))).

Definition set_ctrl (action : list R) : M (t E) unit :=
  let! self := get in
  let! s := lift (Np.add (act (data self)) action) in
  let! c := lift (Np.assign (ctrl (data self)) (Np.clip s 0 1)) in
  set_data (fun d => with_ctrl d c) ;;;
  let! self := get in
  if is_patch (shoulder_variant self) then
    let! elv := lift (qpos_of self "shoulder_elv") in
    let! i := lift (get_eq_ID self) in
    let! rows :=
      lift (set_eq_data (eqs (model self)) i 1 (shoulder_coef elv)) in
    set_model (fun m => with_eqs m rows) ;;;
    let! self := get in
    if String.eqb (shoulder_variant self) "patch-v2" then
      let! elv1 := lift (qpos_of self "shoulder_elv") in
      let! elv2 := lift (qpos_of self "shoulder_elv") in
      let! ang := lift (qpos_of self "elv_angle") in
      let shift := 2 * Rmin elv1 (PI - elv2) / PI * ang in
      let! rot := lift (joint_name2id (model self) "shoulder_rot") in
      let! rng := lift (Np.setitem (jnt_range (model self)) rot
                    (- PI / 2 - shift, PI / 9 - shift)) in
      set_model (fun m => with_jnt_range m rng)
    else ret tt
  else ret tt.

(** *** get_observation *)

(** [(x - 0.5) * 2] *)
Definition normalise (x : R) : R := (x - 0.5) * 2.

(** [(rgb/255.0 - 0.5)*2] on one pixel *)
Definition rgb_pixel (p : R * R * R) : list R :=
  let '(r, g, b) := p in
  [normalise (r / 255.0); normalise (g / 255.0); normalise (b / 255.0)].

(** [np.concatenate([rgb, np.expand_dims(depth, 2)], axis=2)]: both must
    have the same rows and columns. *)
Definition concatenate_depth (rgb : list (list (list R))) (depth : depth_image)
  : res (list (list (list R))) :=
  if decide (Forall2 (fun r z => length r = length z) rgb depth)
  then Ok (zip_with (zip_with (fun p z => p ++ [z])) rgb depth)
  else Raise ValueError.

Definition get_observation (self : t E) : res observation :=
  let m := model self in
  let d := data self in
  (* Normalise qpos *)
  let* jnt_range := Np.take (jnt_range m) (independent_joints self) in
  let* qpos := Np.take (qpos d) (independent_joints self) in
  let* width := Np.sub (snd <$> jnt_range) (fst <$> jnt_range) in
  let* offset := Np.div (fst <$> jnt_range) width in
  let* qpos := Np.sub qpos offset in
  let qpos := normalise <$> qpos in
  (* Get qvel, qacc *)
  let* qvel := Np.take (qvel d) (independent_joints self) in
  let* qacc := Np.take (qacc d) (independent_joints self) in
  (* Get fingertip position; not normalised *)
  let* fingertip_position := get_geom_xpos m d fingertip in
  (* Normalise act *)
  let act := normalise <$> act d in
  let proprioception := qpos ++ qvel ++ qacc ++ fingertip_position ++ act in
  if render_observations self then
    let* (rgb, depth) := sim_render m d (ocular_image_width self)
                       (ocular_image_height self) "oculomotor" in
    let depth := reverse ((fun row : list R => normalise <$> row) <$> depth) in
    let rgb :=
      reverse ((fun row : list (R * R * R) => rgb_pixel <$> row) <$> rgb) in
    let* visual := concatenate_depth rgb depth in
    Ok (Observation proprioception (Some visual))
  else
    Ok (Observation proprioception None).

(** *** reset *)
Definition reset : M (t E) observation :=
  let! self := get in
  set_data (sim_reset (model self)) ;;;
  (* Randomly sample qpos, qvel, act *)
  let! self := get in
  let nq := length (independent_joints self) in
  let '(qpos, g) := Rng.uniform (rng self) (replicate nq (-0.05, 0.05)) in
  let '(qvel, g) := Rng.uniform g (replicate nq (-0.05, 0.05)) in
  let '(act, g) := Rng.uniform g (replicate (na (model self)) (0, 1)) in
  modify (fun self => with_rng self g) ;;;
  (* Set qpos and qvel *)
  set_data (fun d => with_qpos d (Np.fill (Mj.qpos d) 0)) ;;;
  let! self := get in
  let! v :=
    lift (Np.put (Mj.qpos (data self)) (independent_joints self) qpos) in
  set_data (fun d => with_qpos d v) ;;;
  set_data (fun d => with_qvel d (Np.fill (Mj.qvel d) 0)) ;;;
  let! self := get in
  let! v :=
    lift (Np.put (Mj.qvel (data self)) (independent_joints self) qvel) in
  set_data (fun d => with_qvel d v) ;;;
  let! self := get in
  let! v := lift (Np.assign (Mj.act (data self)) act) in
  set_data (fun d => with_act d v) ;;;
  (* Some effort terms may be stateful and need to be reset *)
  modify (fun self =>
            with_effort_term self (effort_reset (effort_term self))) ;;;
  (* Do a forward so everything will be set *)
  let! self := get in
  set_data (sim_forward (model self)) ;;;
  let! self := get in
  lift (get_observation self).

(** [self.dt] *)
Definition dt (self : t E) : R :=
  opt_timestep (model self) * IZR (frame_skip self).

End Methods.
End FixedEye.

(** ** evaluate-tracking.py *)
Module Tracking.
Import FixedEye.

(** [np.min(a)] and [np.max(a)]; an empty array has neither. *)
Definition np_min (a : list R) : res R :=
  match a with
  | [] => Raise ValueError
  | x :: a' => Ok (foldl Rmin x a')
  end.
Definition np_max (a : list R) : res R :=
  match a with
  | [] => Raise ValueError
  | x :: a' => Ok (foldl Rmax x a')
  end.

(** [np.arange(n) * dt] *)
Definition times (n : nat) (dt : R) : list R :=
  (fun k => IZR k * dt) <$> seqZ 0 (Z.of_nat n).

(** One component: the amplitude, the frequency and the phase are drawn in
    this order. *)
Definition component (g : Rng.t) (min_amplitude max_amplitude : R)
    (t : list R) : list R * Rng.t :=
  let min_frequency := 0.01 in
  let max_frequency := 0.5 in
  let '(amplitude, g) := Rng.uniform1 g min_amplitude max_amplitude in
  let '(frequency, g) := Rng.uniform1 g min_frequency max_frequency in
  let '(phase, g) := Rng.uniform1 g 0 (2 * PI) in
  ((fun ti => amplitude * sin (frequency * 2 * PI * ti + phase)) <$> t, g).

(** The loop [for _ in range(num_components): sine += ...] *)
Fixpoint components (num_components : nat) (g : Rng.t)
    (min_amplitude max_amplitude : R) (t sine : list R) : list R * Rng.t :=
  match num_components with
  | O => (sine, g)
  | S n =>
      let '(c, g) := component g min_amplitude max_amplitude t in
      components n g min_amplitude max_amplitude t (zip_with Rplus sine c)
  end.

(** The sum of the components, before it is normalised. *)
Definition raw_sine {E} (env : FixedEye.t E) (num_components : nat)
    (min_amplitude max_amplitude : R) : list R * Rng.t :=
  let t := times (1000 + 1) (dt env) in
  let sine := replicate (length t) 0 in
  components num_components (rng env) min_amplitude max_amplitude t sine.

(** Normalise to fit limits *)
Definition fit_limits (limits : R * R) (sine : list R) : res (list R) :=
  let* lo := np_min sine in
  let sine := (fun x => x - lo) <$> sine in
  let* hi := np_max sine in
  let sine := (fun x => x / hi) <$> sine in
  Ok ((fun x => fst limits + (snd limits - fst limits) * x) <$> sine).

(** [generate_sine_wave(env, limits, num_components, min_amplitude,
    max_amplitude)]; the draws advance [env.rng]. *)
Definition generate_sine_wave {E} (limits : R * R) (num_components : nat)
    (min_amplitude max_amplitude : R) : M (FixedEye.t E) (list R) :=
  let! env := get in
  let '(sine, g) := raw_sine env num_components min_amplitude max_amplitude in
  modify (fun env => with_rng env g) ;;;
  lift (fit_limits limits sine).

(** [generate_trajectory(env)]; the limits are attributes of the task's
    environment. *)
Definition generate_trajectory {E} (target_limits_y target_limits_z : R * R)
  : M (FixedEye.t E) (list R * list R) :=
  let! sin_y := generate_sine_wave target_limits_y 5 1 5 in
  let! sin_z := generate_sine_wave target_limits_z 5 1 5 in
  ret (sin_y, sin_z).

End Tracking.

(** ** Notions the properties are stated with *)
Module Spec.
Import FixedEye Tracking.

Section Spec.
Context {E : Type} `{!EffortTerm E} `{!MjSim}.
Implicit Types self : FixedEye.t E.

(** The rows [rows'] are [rows] but, at most, for column 1 of the data of
    row [i]. *)
Definition only_coefficient (i : option nat) (rows rows' : list eq_row)
  : Prop :=
  rows' = rows
  ∨ ∃ k r v, i = Some k ∧ rows !! k = Some r
             ∧ rows'
               = <[k := with_eq_data r (<[1%nat := v]> (eq_data r))]> rows.

(** The ranges [rng'] are [rng] but, at most, for the range of the joint
    [name]. *)
Definition only_range_of (m : mjModel) (name : string)
    (rng rng' : list (R * R)) : Prop :=
  rng' = rng
  ∨ ∃ k p, joint_name2id m name = Ok (Z.of_nat k) ∧ rng' = <[k := p]> rng.

(** The qpos block of the proprioception, entry by entry *)
Definition qpos_block (qpos : list R) (jnt_range : list (R * R)) : list R :=
  zip_with (fun q r => ((q - fst r / (snd r - fst r)) - 0.5) * 2)
    qpos jnt_range.

(** An environment whose arrays have the sizes of its model, whose
    fingertip geom exists and whose camera renders. *)
Definition ready self : Prop :=
  Forall (fun j => 0 ≤ j < Z.of_nat (njnt (model self)))%Z
    (independent_joints self)
  ∧ length (jnt_range (model self)) = njnt (model self)
  ∧ (njnt (model self) ≤ length (qpos (data self)))%nat
  ∧ (njnt (model self) ≤ length (qvel (data self)))%nat
  ∧ (njnt (model self) ≤ length (qacc (data self)))%nat
  ∧ length (act (data self)) = na (model self)
  ∧ (∃ i, name2id (geom_names (model self)) fingertip = Ok (Z.of_nat i)
          ∧ (i < length (geom_xpos (data self)))%nat)
  ∧ (render_observations self = true ->
     ∀ d, ∃ frame,
       sim_render (model self) d (ocular_image_width self)
         (ocular_image_height self) "oculomotor" = Ok frame).


(** The inverse of [normalise], as the specification words it:
    [b/2 + 0.5]. *)
Definition denormalise (b : R) : R := b / 2 + 0.5.





(** The joint sets as Python sets *)
Definition joint_set (ids : list Z) : gset Z := list_to_set ids.

Definition all_joints (m : mjModel) : gset Z :=
  list_to_set (seqZ 0 (Z.of_nat (njnt m))).

(** A constraint of joint-coupling type that links the joints named
    [shoulder1_r2] and [elv_angle], in the words of the specification: the
    names of its two objects are these two, in either order. *)
Definition couples (m : mjModel) (r : eq_row) : bool :=
  bool_decide (eq_type r = mjEQ_JOINT)
  && match joint_id2name m (eq_obj1id r), joint_id2name m (eq_obj2id r) with
     | Ok n1, Ok n2 =>
         bool_decide (({[n1; n2]} : gset (option string))
                      = {[Some "shoulder1_r2"; Some "elv_angle"]})
     | _, _ => false
     end.

(** The three tests of the comprehension that come before the names. *)
Definition tested (r : eq_row) : bool :=
  bool_decide (eq_type r = mjEQ_JOINT)
  && bool_decide (0 < eq_obj1id r)%Z
  && bool_decide (eq_obj2id r ≠ 0%Z).

(** The indices, counted from [idx], of the rows that satisfy [p]. *)
Fixpoint indices_from (p : eq_row -> bool) (idx : nat) (rows : list eq_row)
  : list nat :=
  match rows with
  | [] => []
  | r :: rows' =>
      if p r then idx :: indices_from p (S idx) rows'
      else indices_from p (S idx) rows'
  end.

Definition coupling_indices (m : mjModel) : list nat :=
  indices_from (couples m) 0 (eqs m).

(** Every id whose name the comprehension asks for is a joint id. *)
Definition names_resolve (m : mjModel) : Prop :=
  Forall (fun r => tested r = true ->
            (0 ≤ eq_obj1id r < Z.of_nat (length (joint_names m)))%Z
            ∧ (0 ≤ eq_obj2id r < Z.of_nat (length (joint_names m)))%Z)
    (eqs m).

(** No two joints have the same name. *)
Definition unique_names (names : list (option string)) : Prop :=
  ∀ i j n, names !! i = Some (Some n) -> names !! j = Some (Some n) -> i = j.

Definition no_kwargs : kwargs E := Kwargs None None None None None.

(** [m] is a least entry of [a]; [m] is a greatest entry of [a]. *)
Definition is_min (m : R) (a : list R) : Prop := m ∈ a ∧ ∀ x, x ∈ a -> m <= x.

Definition is_max (m : R) (a : list R) : Prop := m ∈ a ∧ ∀ x, x ∈ a -> x <= m.

(** The entries of [a] are not all the same. *)
Definition not_constant (a : list R) : Prop :=
  ∃ x y, x ∈ a ∧ y ∈ a ∧ x ≠ y.

(** Entry by entry, the loop adds to the entry at time [tk] the sum of the
    components at [tk]. *)
Fixpoint wave_sum (num_components : nat) (g : Rng.t)
    (min_amplitude max_amplitude tk : R) : R :=
  match num_components with
  | O => 0
  | S n =>
      let '(amplitude, g) := Rng.uniform1 g min_amplitude max_amplitude in
      let '(frequency, g) := Rng.uniform1 g 0.01 0.5 in
      let '(phase, g) := Rng.uniform1 g 0 (2 * PI) in
      amplitude * sin (frequency * 2 * PI * tk + phase)
      + wave_sum n g min_amplitude max_amplitude tk
  end.

End Spec.
End Spec.
Export Spec.

(** ** Sample environments *)
Module Sample.

(** An effort term that counts; [reset] puts the count back to zero. *)
#[export] Instance effort_counter : EffortTerm nat := {
  effort_zero := 0%nat;
  effort_reset _ := 0%nat
}.

(** A backend at rest: [reset] and [forward] leave the data as they are, and
    the camera sees a black frame. *)
#[export] Instance sim_at_rest : MjSim := {
  sim_reset _ d := d;
  sim_forward _ d := d;
  sim_render _ _ w h _ :=
    Ok (replicate h (replicate w (0, 0, 0)), replicate h (replicate w 0))
}.

(** A generator whose draws are all [u]. *)
Definition constant_rng (u : R) : Rng.t := Rng.Make (fun _ => u) 0.

(** An arm with the joints [names], the constraints [rows], every joint of
    range [[1, 3]], and one muscle. *)
Definition arm (names : list string) (rows : list eq_row) : mjModel :=
  MjModel (length names) 1 0.002 rows (replicate (length names) (1, 3))
    (Some <$> names) [Some "hand_2distph"]
    [Some "for_testing"; Some "oculomotor"]
    [(0, 0, 0); (0, 0, 0)] [(1, 0, 0, 0); (1, 0, 0, 0)].

(** Its data: every joint at position [2], at rest, the muscle half
    active. *)
Definition arm_data (names : list string) : mjData :=
  MjData (replicate (length names) 2) (replicate (length names) 0)
    (replicate (length names) 0) [0.5] [0] [(0.1, 0.2, 0.3)].

(** The three joints the patch variants name, and the constraint that
    couples [shoulder1_r2] to [elv_angle]. *)
Definition shoulder_names : list string :=
  ["shoulder_rot"; "elv_angle"; "shoulder1_r2"; "shoulder_elv"].
Definition shoulder_coupling : eq_row := EqRow mjEQ_JOINT 2 1 1 [0; 1; 0; 0; 0].

(** An environment as [__init__] leaves it, without rendering. *)
Definition env {E} `{!EffortTerm E} (variant : string) (names : list string)
    (rows : list eq_row) (eq_id : option nat) : FixedEye.t E :=
  let m := arm names rows in
  FixedEye.Make variant 10 0.002 50 (constant_rng 0) m (arm_data names)
    (FixedEye.dependent_of m)
    (FixedEye.independent_of m (FixedEye.dependent_of m))
    eq_id ([-1], [1]) effort_zero false 80 120 10.

(** Two joints and an active weld of body 5: the first object of the
    constraint is no joint. *)
Definition welded : mjModel :=
  arm ["elv_angle"; "shoulder_elv"] [EqRow 1 5 0 1 [0; 0; 0; 0; 0]].

(** The shoulder joints and their coupling. *)
Definition coupled : mjModel := arm shoulder_names [shoulder_coupling].

(** The shoulder joints and a constraint on the joint [shoulder1_r2] alone:
    it has no second object, which MuJoCo writes [-1]. *)
Definition single : mjModel :=
  arm shoulder_names [EqRow mjEQ_JOINT 2 (-1) 1 [0; 1; 0; 0; 0]].

(** One joint, the variant [original], no rendering. *)
Definition one_joint : FixedEye.t nat :=
  env "original" ["elv_angle"] [] None.

(** The shoulder joints, the variant [patch-v1] and its constraint cached. *)
Definition patched : FixedEye.t nat :=
  env "patch-v1" shoulder_names [shoulder_coupling] (Some 0%nat).

End Sample.

(** ** class FixedEye: further methods *)
Module FixedEyeViews.
Import FixedEye.

Section Views.
Context {E : Type}.

(** [grab_proprioception(self)]: [a[2:]] drops the first two entries. *)
Definition grab_proprioception (self : FixedEye.t E) : res (list R) :=
  let m := model self in
  let d := data self in
  (* Ignore eye qpos and qvel for now *)
  let* jnt_range := Np.take (jnt_range m) (independent_joints self) in
  let* qpos := Np.take (qpos d) (independent_joints self) in
  let* width := Np.sub (snd <$> jnt_range) (fst <$> jnt_range) in
  let* offset := Np.div (fst <$> jnt_range) width in
  let* qpos := Np.sub qpos offset in
  let qpos := normalise <$> qpos in
  let* qvel := Np.take (qvel d) (independent_joints self) in
  let* qacc := Np.take (qacc d) (independent_joints self) in
  let* finger_position := get_geom_xpos m d fingertip in
  Ok (drop 2 qpos ++ drop 2 qvel ++ drop 2 qacc ++ finger_position).

End Views.

(** *** Callbacks *)

(** What the environment asks of a callback: its [name] and [update]. *)
Class Callback (C : Type) : Type := {
  callback_name : C -> string;
  callback_update : C -> Z -> C
}.

Section Callbacks.
Context {C : Type} `{!Callback C}.

(** Line 80: [{callback.name: callback for callback in callbacks}]; a later
    callback replaces an earlier one of the same name. *)
Definition callbacks_of (callbacks : list C) : gmap string C :=
  foldl (fun dict callback => <[callback_name callback := callback]> dict)
    ∅ callbacks.

(** [callback(self, callback_name, num_timesteps)], on [self.callbacks]. *)
Definition callback (name : string) (num_timesteps : Z)
  : M (gmap string C) unit :=
  let! callbacks := get in
  match callbacks !! name with
  | Some c =>
      modify (fun dict => <[name := callback_update c num_timesteps]> dict)
  | None => lift (Raise KeyError)
  end.

End Callbacks.

(** *** Rendering *)

(** A viewer is known by the order of its creation: the window
    [mujoco_py.MjViewer(sim)] or the context
    [mujoco_py.MjRenderContextOffscreen(sim, device)]. *)
Inductive viewer_object : Set :=
  | MjViewer (id : nat)
  | MjRenderContextOffscreen (id : nat) (device : Z).

(** The calls made on the viewers: [render(width, height, camera_id)], with
    no size for the window, and [read_pixels(width, height, depth)]. *)
Inductive viewer_call : Set :=
  | Render (v : viewer_object) (size : option (nat * nat))
      (camera_id : option Z)
  | ReadPixels (v : viewer_object) (width height : nat) (depth : bool).

(** The attributes [viewer] and [_viewers], the number of viewers created so
    far, and the calls made on them, the latest first. *)
Record viewers : Type := Viewers {
  viewer : option viewer_object;
  _viewers : gmap string (option viewer_object);
  created : nat;
  calls : list viewer_call
}.

(** After construction (lines 69-70) *)
Definition no_viewers : viewers := Viewers None ∅ 0 [].

(** What a frame is, given the calls made so far, is the backend's. *)
Class MjRender : Type := {
  read_pixels : list viewer_call -> nat -> nat -> rgb_image * depth_image
}.

(** What [render] returns. *)
Inductive rendered : Type :=
  | RGB (data : rgb_image)
  | Depth (data : depth_image).

Section Rendering.
Context `{!MjRender}.

Definition is_array_mode (mode : string) : bool :=
  String.eqb mode "rgb_array" || String.eqb mode "depth_array".

(** [_get_viewer(self, mode)] *)
Definition _get_viewer (mode : string) : M viewers (option viewer_object) :=
  let! self := get in
  (* [dict.get]: [None] for a missing key *)
  let found := default None (_viewers self !! mode) in
  modify (fun self =>
            Viewers found (_viewers self) (created self) (calls self)) ;;;
  let! self := get in
  match viewer self with
  | None =>
      (if String.eqb mode "human" then
         modify (fun self =>
                   Viewers (Some (MjViewer (created self))) (_viewers self)
                     (S (created self)) (calls self))
       else if is_array_mode mode then
         modify (fun self =>
                   Viewers
                     (Some (MjRenderContextOffscreen (created self) (-1)))
                     (_viewers self) (S (created self)) (calls self))
       else ret tt) ;;;
      modify (fun self =>
                Viewers (viewer self) (<[mode := viewer self]> (_viewers self))
                  (created self) (calls self)) ;;;
      let! self := get in
      ret (viewer self)
  | Some v => ret (Some v)
  end.

(** A method call on what [_get_viewer] returned *)
Definition on_viewer {A} (v : option viewer_object)
    (call : viewer_object -> M viewers A) : M viewers A :=
  match v with
  | Some v => call v
  | None => lift (Raise AttributeError)
  end.

Definition log (c : viewer_call) : M viewers unit :=
  modify (fun self =>
            Viewers (viewer self) (_viewers self) (created self)
              (c :: calls self)).

(** [viewer.render(...)] *)
Definition viewer_render (size : option (nat * nat)) (camera_id : option Z)
    (v : viewer_object) : M viewers unit :=
  log (Render v size camera_id).

(** [viewer.read_pixels(width, height, depth)] *)
Definition viewer_read_pixels (width height : nat) (depth : bool)
    (v : viewer_object) : M viewers (rgb_image * depth_image) :=
  log (ReadPixels v width height depth) ;;;
  let! self := get in
  ret (read_pixels (calls self) width height).

(** [render(self, mode, width, height, camera_id, camera_name)], with the
    model [m] of the environment. *)
Definition render (m : mjModel) (mode : string) (width height : nat)
    (camera_id : option Z) (camera_name : option string)
  : M viewers (option rendered) :=
  (if is_array_mode mode then
     if bool_decide (camera_id ≠ None) && bool_decide (camera_name ≠ None)
     then lift (Raise ValueError)
     else
       let no_camera_specified :=
         bool_decide (camera_name = None) && bool_decide (camera_id = None) in
       let camera_name :=
         if no_camera_specified then Some "track" else camera_name in
       let camera_id :=
         match camera_id, camera_name with
         | None, Some name =>
             match name2id (camera_names m) name with
             | Ok id => Some id
             | Raise _ => None
             end
         | _, _ => camera_id
         end in
       let! v := _get_viewer mode in
       on_viewer v (viewer_render (Some (width, height)) camera_id)
   else ret tt) ;;;
  if String.eqb mode "rgb_array" then
    let! v := _get_viewer mode in
    let! data := on_viewer v (viewer_read_pixels width height false) in
    (* original image is upside-down, so flip it *)
    ret (Some (RGB (reverse (fst data))))
  else if String.eqb mode "depth_array" then
    let! v := _get_viewer mode in
    on_viewer v (viewer_render (Some (width, height)) None) ;;;
    let! v := _get_viewer mode in
    let! data := on_viewer v (viewer_read_pixels width height true) in
    ret (Some (Depth (reverse (snd data))))
  else if String.eqb mode "human" then
    let! v := _get_viewer mode in
    on_viewer v (viewer_render None None) ;;;
    ret None
  else ret None.

End Rendering.
End FixedEyeViews.
Export FixedEyeViews.

(** ** Parts of the methods, for the further properties *)
Module Parts.
Import FixedEye.

Section Parts.
Context {E : Type}.

(** Lines 85-91 of [set_ctrl]: what follows the write of the control. *)
Definition shoulder_patch : M (FixedEye.t E) unit :=
  let! self := get in
  if is_patch (shoulder_variant self) then
    let! elv := lift (qpos_of self "shoulder_elv") in
    let! i := lift (get_eq_ID self) in
    let! rows :=
      lift (set_eq_data (eqs (model self)) i 1 (shoulder_coef elv)) in
    set_model (fun m => with_eqs m rows) ;;;
    let! self := get in
    if String.eqb (shoulder_variant self) "patch-v2" then
      let! elv1 := lift (qpos_of self "shoulder_elv") in
      let! elv2 := lift (qpos_of self "shoulder_elv") in
      let! ang := lift (qpos_of self "elv_angle") in
      let shift := 2 * Rmin elv1 (PI - elv2) / PI * ang in
      let! rot := lift (joint_name2id (model self) "shoulder_rot") in
      let! rng := lift (Np.setitem (jnt_range (model self)) rot
                    (- PI / 2 - shift, PI / 9 - shift)) in
      set_model (fun m => with_jnt_range m rng)
    else ret tt
  else ret tt.

(** The environment with the control [c]. *)
Definition with_control (self : FixedEye.t E) (c : list R) : FixedEye.t E :=
  with_data self (with_ctrl (data self) c).

End Parts.

Section Runs.
Context {E : Type} `{!EffortTerm E} `{!MjSim}.

(** The environments that calls of [set_ctrl], [reset] and
    [generate_sine_wave] lead to from [self], whether the calls return or
    raise. *)
Inductive reaches (self : FixedEye.t E) : FixedEye.t E -> Prop :=
  | reaches_here : reaches self self
  | reaches_set_ctrl s action :
      reaches self s -> reaches self (set_ctrl action s).2
  | reaches_reset s :
      reaches self s -> reaches self (reset s).2
  | reaches_sine_wave s limits num_components min_amplitude max_amplitude :
      reaches self s ->
      reaches self
        (Tracking.generate_sine_wave limits num_components min_amplitude
           max_amplitude s).2.

(** What no method writes after construction: the attributes of the
    instance but the generator, the effort term, the data and the model,
    and of the model everything but the constraint data and the joint
    ranges, which keep their sizes. *)
Definition same_setup (self s : FixedEye.t E) : Prop :=
  shoulder_variant s = shoulder_variant self
  ∧ action_sample_freq s = action_sample_freq self
  ∧ timestep s = timestep self
  ∧ frame_skip s = frame_skip self
  ∧ dependent_joints s = dependent_joints self
  ∧ independent_joints s = independent_joints self
  ∧ eq_ID_shoulder1_r2 s = eq_ID_shoulder1_r2 self
  ∧ action_space s = action_space self
  ∧ render_observations s = render_observations self
  ∧ ocular_image_height s = ocular_image_height self
  ∧ ocular_image_width s = ocular_image_width self
  ∧ video_frames_per_second s = video_frames_per_second self
  ∧ njnt (model s) = njnt (model self)
  ∧ na (model s) = na (model self)
  ∧ opt_timestep (model s) = opt_timestep (model self)
  ∧ joint_names (model s) = joint_names (model self)
  ∧ geom_names (model s) = geom_names (model self)
  ∧ camera_names (model s) = camera_names (model self)
  ∧ cam_pos (model s) = cam_pos (model self)
  ∧ cam_quat (model s) = cam_quat (model self)
  ∧ length (eqs (model s)) = length (eqs (model self))
  ∧ length (jnt_range (model s)) = length (jnt_range (model self)).

End Runs.

(** The viewer kept for [mode], if there is one *)
Definition kept (st : viewers) (mode : string) : option viewer_object :=
  default None (_viewers st !! mode).

Definition count (v : option viewer_object) : nat :=
  match v with Some _ => 1 | None => 0 end.

(** Every viewer created is kept, under one of the three modes. *)
Definition viewers_counted (st : viewers) : Prop :=
  created st
  = (count (kept st "human") + count (kept st "rgb_array")
     + count (kept st "depth_array"))%nat
  ∧ ∀ mode v, kept st mode = Some v ->
              mode = "human" ∨ mode = "rgb_array" ∨ mode = "depth_array".

(** The camera [render] hands to the viewer in the array modes. *)
Definition camera_of (m : mjModel) (camera_id : option Z)
    (camera_name : option string) : option Z :=
  match camera_id, camera_name with
  | Some id, _ => Some id
  | None, Some name =>
      match name2id (camera_names m) name with
      | Ok id => Some id
      | Raise _ => None
      end
  | None, None =>
      match name2id (camera_names m) "track" with
      | Ok id => Some id
      | Raise _ => None
      end
  end.

End Parts.
Export Parts.

(** ** Further sample environments *)
Module Samples.
Import FixedEye Sample.

(** A patch variant on an arm that has no joint named [shoulder_elv]. *)
Definition unpatched : FixedEye.t nat :=
  env "patch-v1" ["elv_angle"] [] None.

(** An arm whose model has no camera named [for_testing]. *)
Definition blind : mjModel :=
  MjModel 1 1 0.002 [] [(1, 3)] [Some "elv_angle"] [Some "hand_2distph"]
    [Some "oculomotor"] [(0, 0, 0)] [(1, 0, 0, 0)].

(** One joint, rendering on, an image of two rows and one column. *)
Definition watching : FixedEye.t nat :=
  let m := arm ["elv_angle"] [] in
  FixedEye.Make "original" 10 0.002 50 (constant_rng 0) m
    (arm_data ["elv_angle"]) (FixedEye.dependent_of m)
    (FixedEye.independent_of m (FixedEye.dependent_of m))
    None ([-1], [1]) effort_zero true 2 1 10.

(** Keyword arguments that set the sampling frequency only. *)
Definition sampled_at (freq : R) : kwargs nat :=
  Kwargs (Some freq) None None None None.

(** A callback that remembers the step of its last update. *)
#[export] Instance step_keeper : Callback (string * Z) := {
  callback_name c := fst c;
  callback_update c num_timesteps := (fst c, num_timesteps)
}.

(** Two callbacks named [eval] and one named [checkpoint]. *)
Definition keepers : list (string * Z) :=
  [("eval", 0%Z); ("checkpoint", 0%Z); ("eval", 5%Z)].

(** A backend whose frames are black. *)
#[export] Instance black_frames : MjRender := {
  read_pixels _ width height :=
    (replicate height (replicate width (0, 0, 0)),
     replicate height (replicate width 0))
}.

End Samples.

(** * Properties *)

Import FixedEye.

(** ** numpy arrays *)
Lemma broadcast_to_same {A} (n : nat) (v : list A) :
  length v = n -> Np.broadcast_to n v = Ok v.
Proof. intros Hn. unfold Np.broadcast_to. by rewrite decide_True. Qed.

Section NpFacts.
Context {A B C : Type}.

Lemma binop_same_length (f : A -> B -> C) (x : list A) (y : list B) :
  length x = length y -> Np.binop f x y = Ok (zip_with f x y).
Proof.
  intros Hxy. unfold Np.binop.
  assert ((if decide (length x = 1%nat) then length y else length x)
          = length x) as -> by (case_decide; congruence).
  rewrite (broadcast_to_same _ x) by done. cbn [bind].
  by rewrite broadcast_to_same.
Qed.

Lemma assign_same_length (a v : list A) :
  length v = length a -> Np.assign a v = Ok v.
Proof. apply broadcast_to_same. Qed.

Lemma index_nat (n k : nat) :
  (k < n)%nat -> Np.index n (Z.of_nat k) = Ok k.
Proof.
  intros Hk. unfold Np.index. rewrite decide_True by lia.
  by rewrite Nat2Z.id.
Qed.

Lemma getitem_nat (a : list A) (k : nat) (x : A) :
  a !! k = Some x -> Np.getitem a (Z.of_nat k) = Ok x.
Proof.
  intros Hk. unfold Np.getitem.
  rewrite index_nat by (by eapply lookup_lt_Some). cbn [bind]. by rewrite Hk.
Qed.


End NpFacts.

Lemma fmap_zip_with {A B C D} (g : C -> D) (f : A -> B -> C)
    (l : list A) (k : list B) :
  g <$> zip_with f l k = zip_with (fun x y => g (f x y)) l k.
Proof.
  revert k. induction l as [|x l IH]; intros [|y k]; cbn; [done..|].
  by rewrite <- IH.
Qed.

Lemma clip1_bounds (x : R) : 0 <= Np.clip1 0 1 x <= 1.
Proof.
  unfold Np.clip1, Rmin, Rmax.
  repeat destruct (Rle_dec _ _); lra.
Qed.

Lemma clip_bounds (a : list R) : Forall (fun c => 0 <= c <= 1) (Np.clip a 0 1).
Proof.
  unfold Np.clip. apply Forall_fmap, Forall_true. intros x. apply clip1_bounds.
Qed.

(** Running a method: every match of the monadic code is split. *)
Ltac run :=
  repeat first
    [ progress cbn [bindM bind lift get modify ret set_data set_model
                    fst snd] in *
    | match goal with
      | |- context [match ?x with _ => _ end] => destruct x eqn:?
      end ].

(** ** set_ctrl *)
Section SetCtrl.
Context {E : Type}.
Implicit Types self : FixedEye.t E.

(** The patch never writes the data of the simulation. *)
Lemma set_ctrl_data self action c :
  Np.add (act (data self)) action = Ok c ->
  length c = length (ctrl (data self)) ->
  data (snd (set_ctrl action self))
  = with_ctrl (data self) (Np.clip c 0 1).
Proof.
  intros Hadd Hlen. unfold set_ctrl. cbn [bindM get lift]. rewrite Hadd.
  rewrite assign_same_length
    by (unfold Np.clip; by rewrite length_fmap).
  run; reflexivity.
Qed.

(** C2 (set_ctrl, lines 82-83).  For an action with one entry per actuator
    the written control is [clip(act + action, 0, 1)], entry by entry, so
    every entry of the control lies in [[0, 1]] whatever the action is; the
    action is added to the activation.  This holds for every shoulder
    variant, and whether or not the patch that follows raises. *)
Theorem set_ctrl_clips_activation_plus_action self action :
  length action = length (act (data self)) ->
  length (ctrl (data self)) = length (act (data self)) ->
  let written := ctrl (data (snd (set_ctrl action self))) in
  written = zip_with (fun a x => Np.clip1 0 1 (a + x)) (act (data self)) action
  ∧ length written = length (act (data self))
  ∧ Forall (fun c => 0 <= c <= 1) written.
Proof.
  intros Hact Hctrl written. subst written.
  rewrite (set_ctrl_data self action (zip_with Rplus (act (data self)) action)).
  - cbn [ctrl with_ctrl]. split_and!.
    + unfold Np.clip. by rewrite fmap_zip_with.
    + unfold Np.clip. rewrite length_fmap, length_zip_with. lia.
    + apply clip_bounds.
  - unfold Np.add. by rewrite binop_same_length.
  - rewrite length_zip_with. lia.
Qed.

Lemma get_eq_ID_Ok self k :
  get_eq_ID self = Ok k -> eq_ID_shoulder1_r2 self = Some k.
Proof. unfold get_eq_ID. destruct (eq_ID_shoulder1_r2 self); congruence. Qed.

Lemma set_eq_data_Ok rows i col v rows' :
  set_eq_data rows i col v = Ok rows' ->
  ∃ r, rows !! i = Some r ∧ (col < length (eq_data r))%nat
       ∧ rows' = <[i := with_eq_data r (<[col := v]> (eq_data r))]> rows.
Proof.
  unfold set_eq_data. destruct (rows !! i) as [r|]; [|done].
  case_decide; [|done]. intros [= <-]. eauto.
Qed.

Lemma name2id_Ok names name z :
  name2id names name = Ok z ->
  ∃ i, z = Z.of_nat i ∧ names !! i = Some (Some name).
Proof.
  unfold name2id.
  destruct (list_find _ names) as [[i n]|] eqn:Hfind; [|done].
  intros [= <-]. apply list_find_Some in Hfind as (Hi & -> & _). eauto.
Qed.

Lemma setitem_range_Ok m name z (rng rng' : list (R * R)) p :
  joint_name2id m name = Ok z ->
  Np.setitem rng z p = Ok rng' ->
  only_range_of m name rng rng'.
Proof.
  intros Hz Hset. right.
  destruct (name2id_Ok _ _ _ Hz) as (k & -> & _).
  exists k, p. split; [done|].
  unfold Np.setitem in Hset.
  destruct (Np.index (length rng) (Z.of_nat k)) as [k'|] eqn:Hk; [|done].
  cbn in Hset. injection Hset as <-.
  unfold Np.index in Hk. repeat case_decide; try lia; [|done].
  injection Hk as <-. by rewrite Nat2Z.id.
Qed.

(** C10 (set_ctrl, lines 82-91).  [set_ctrl] writes [sim.data.ctrl] and
    nothing else of the data: positions, velocities, accelerations and
    activations are as before.  With the variant [original] the model
    (constraint data and joint ranges included) is as before too.  With a
    patch variant the model differs at most in column 1 of the data of the
    cached constraint and, for [patch-v2] only, in the range of
    [shoulder_rot].  No other attribute of the environment changes.  All of
    this also holds when the call raises. *)
Theorem set_ctrl_writes_only_ctrl self action :
  let self' := snd (set_ctrl action self) in
  data self' = with_ctrl (data self) (ctrl (data self'))
  ∧ qpos (data self') = qpos (data self)
  ∧ qvel (data self') = qvel (data self)
  ∧ act (data self') = act (data self)
  ∧ self' = with_model (with_data self (data self')) (model self')
  ∧ model self'
    = with_jnt_range (with_eqs (model self) (eqs (model self')))
        (jnt_range (model self'))
  ∧ (is_patch (shoulder_variant self) = false -> model self' = model self)
  ∧ only_coefficient (eq_ID_shoulder1_r2 self)
      (eqs (model self)) (eqs (model self'))
  ∧ (shoulder_variant self ≠ "patch-v2" ->
     jnt_range (model self') = jnt_range (model self))
  ∧ only_range_of (model self) "shoulder_rot"
      (jnt_range (model self)) (jnt_range (model self')).
Proof.
  unfold set_ctrl. run.
  all: repeat match goal with
       | H : get_eq_ID _ = Ok _ |- _ => apply get_eq_ID_Ok in H
       | H : set_eq_data _ _ _ _ = Ok _ |- _ =>
           apply set_eq_data_Ok in H as (? & ? & ? & ->)
       | H : joint_name2id _ _ = Ok ?z, H' : Np.setitem _ ?z _ = Ok _ |- _ =>
           apply (setitem_range_Ok _ _ _ _ _ _ H) in H'
       | H : String.eqb _ _ = true |- _ => apply String.eqb_eq in H
       end.
  all: destruct self as [variant ? ? ? ? m d ? ? eqid ? ? ? ? ? ?].
  all: destruct m as [? ? ? rows rng ? ? ? ? ?], d as [? ? ? ? ? ?].
  all: cbn -[is_patch String.eqb] in *.
  all: split_and!; try done; try (by left); try congruence.
  all: try (right; eauto 10).
Qed.

(** *** The shoulder coefficient *)

Lemma shoulder_coef_linear (elv : R) : shoulder_coef elv = 2 / PI * elv - 1.
Proof. unfold shoulder_coef. field. apply PI_neq0. Qed.

Lemma shoulder_coef_continuous : continuity shoulder_coef.
Proof.
  assert (shoulder_coef = (fct_cte (2 / PI) * id - fct_cte 1)%F) as ->.
  { apply functional_extensionality. intros elv.
    rewrite shoulder_coef_linear. reflexivity. }
  reg.
Qed.

Lemma shoulder_coef_bounds (elv : R) :
  0 <= elv <= PI -> -1 <= shoulder_coef elv <= 1.
Proof.
  intros [Hlo Hhi]. rewrite shoulder_coef_linear.
  pose proof PI_RGT_0 as Hpi.
  assert (0 <= 2 / PI * elv <= 2) as [H0 H2]; [|lra].
  assert (0 < / PI) as Hinv by (by apply Rinv_0_lt_compat).
  assert (/ PI * PI = 1) as Hone by (apply Rinv_l; lra).
  unfold Rdiv. split; nra.
Qed.

Lemma qpos_of_frame self self' name :
  joint_names (model self') = joint_names (model self) ->
  qpos (data self') = qpos (data self) ->
  qpos_of self' name = qpos_of self name.
Proof.
  intros Hn Hq. unfold qpos_of, joint_name2id. by rewrite Hn, Hq.
Qed.

(** C4 (set_ctrl, lines 85-87).  With a patch variant, every call of
    [set_ctrl] that returns has stored [-((PI - 2 * elevation) / PI)], with
    [elevation] the position of the joint [shoulder_elv], in column 1 of the
    data of the cached constraint.  So has every call whose action has one
    entry per actuator, when the joint and the cached row exist, also when
    the range update of [patch-v2] raises afterwards.  As a function of the
    elevation the coefficient is continuous, lies in [[-1, 1]] on [[0, PI]],
    and is [-1] at [0] and [1] at [PI]. *)
Theorem set_ctrl_shoulder_coefficient :
  (∀ self action,
      is_patch (shoulder_variant self) = true ->
      fst (set_ctrl action self) = Ok tt ->
      ∃ k r' elevation,
        eq_ID_shoulder1_r2 self = Some k
        ∧ qpos_of self "shoulder_elv" = Ok elevation
        ∧ eqs (model (snd (set_ctrl action self))) !! k = Some r'
        ∧ eq_data r' !! 1%nat = Some (- ((PI - 2 * elevation) / PI)))
  ∧ (∀ self action k r elevation,
      is_patch (shoulder_variant self) = true ->
      length action = length (act (data self)) ->
      length (ctrl (data self)) = length (act (data self)) ->
      eq_ID_shoulder1_r2 self = Some k ->
      eqs (model self) !! k = Some r ->
      (1 < length (eq_data r))%nat ->
      qpos_of self "shoulder_elv" = Ok elevation ->
      ∃ r', eqs (model (snd (set_ctrl action self))) !! k = Some r'
            ∧ eq_data r' !! 1%nat = Some (- ((PI - 2 * elevation) / PI))
            ∧ r' = with_eq_data r
                     (<[1%nat := shoulder_coef elevation]> (eq_data r)))
  ∧ continuity shoulder_coef
  ∧ (∀ elevation, 0 <= elevation <= PI ->
                  -1 <= shoulder_coef elevation <= 1)
  ∧ shoulder_coef 0 = -1
  ∧ shoulder_coef PI = 1.
Proof.
  split_and!.
  - intros self action Hpatch. unfold set_ctrl. run; try done.
    all: intros _.
    all: repeat match goal with
         | H : get_eq_ID _ = Ok _ |- _ => apply get_eq_ID_Ok in H
         | H : set_eq_data _ _ _ _ = Ok _ |- _ =>
             apply set_eq_data_Ok in H as (? & ? & ? & ->)
         end.
    all: cbn [model data with_data with_model eq_ID_shoulder1_r2 eqs
              with_eqs with_jnt_range shoulder_variant] in *.
    all: try congruence.
    all: match goal with
         | H1 : eq_ID_shoulder1_r2 _ = Some ?k, H2 : eqs _ !! ?k = Some ?r
           |- context [shoulder_coef ?x] =>
             exists k, (with_eq_data r (<[1%nat := shoulder_coef x]>
                                         (eq_data r))), x
         end.
    all: split_and!; [done|eassumption| |].
    all: try (apply list_lookup_insert_eq; by eapply lookup_lt_Some).
    all: cbn [eq_data with_eq_data]; by apply list_lookup_insert_eq.
  - intros self action k r elv Hpatch Hact Hctrl Hk Hr Hcol Helv.
    exists (with_eq_data r (<[1%nat := shoulder_coef elv]> (eq_data r))).
    split_and!; [|cbn; by rewrite list_lookup_insert_eq|done].
    unfold set_ctrl. cbn [bindM get lift].
    unfold Np.add. rewrite binop_same_length by done.
    rewrite assign_same_length
      by (unfold Np.clip; rewrite length_fmap, length_zip_with; lia).
    cbn [bindM set_data modify get]. cbn [shoulder_variant with_data].
    rewrite Hpatch. cbn [bindM lift].
    rewrite (qpos_of_frame self) by done. rewrite Helv.
    unfold get_eq_ID. cbn [eq_ID_shoulder1_r2 with_data]. rewrite Hk.
    unfold set_eq_data. cbn [model with_data]. rewrite Hr.
    rewrite decide_True by done.
    run; cbn; by rewrite list_lookup_insert_eq by (by eapply lookup_lt_Some).
  - apply shoulder_coef_continuous.
  - apply shoulder_coef_bounds.
  - rewrite shoulder_coef_linear. lra.
  - rewrite shoulder_coef_linear. field. apply PI_neq0.
Qed.

End SetCtrl.

(** ** get_observation *)
Section GetObservation.
Context {E : Type} `{!EffortTerm E} `{!MjSim}.
Implicit Types self : FixedEye.t E.

Lemma take_Ok {A} (a : list A) (idx : list Z) (xs : list A) :
  Np.take a idx = Ok xs ->
  length xs = length idx
  ∧ ∀ k i, idx !! k = Some i ->
           ∃ x, xs !! k = Some x ∧ Np.getitem a i = Ok x.
Proof.
  revert xs. induction idx as [|i idx IH]; intros xs; cbn [Np.take].
  - intros [= <-]. split; [done|]. intros k i. by rewrite lookup_nil.
  - destruct (Np.getitem a i) as [x|] eqn:Hx; cbn [bind]; [|done].
    destruct (Np.take a idx) as [xs'|]; cbn [bind]; [|done].
    intros [= <-]. destruct (IH xs' eq_refl) as [Hlen Hget].
    split; [cbn; by rewrite Hlen|].
    intros [|k] j; cbn; [intros [= <-]; eauto|apply Hget].
Qed.

Lemma take_total {A} (a : list A) (idx : list Z) :
  Forall (fun i => 0 ≤ i < Z.of_nat (length a))%Z idx ->
  ∃ xs, Np.take a idx = Ok xs.
Proof.
  induction 1 as [|i idx Hi _ [xs IH]]; cbn [Np.take]; [by eexists|].
  destruct (lookup_lt_is_Some_2 a (Z.to_nat i)) as [x Hx]; [lia|].
  rewrite <- (Z2Nat.id i) by lia.
  rewrite (getitem_nat _ _ _ Hx), IH. cbn. by eexists.
Qed.

Lemma qpos_block_eq (qpos : list R) (jnt_range : list (R * R)) :
  normalise
    <$> zip_with Rminus qpos
          (zip_with Rdiv (fst <$> jnt_range)
             (zip_with Rminus (snd <$> jnt_range) (fst <$> jnt_range)))
  = qpos_block qpos jnt_range.
Proof.
  unfold qpos_block. revert jnt_range.
  induction qpos as [|q qpos IH]; intros [|[lo hi] jr]; cbn; [done..|].
  by rewrite <- IH.
Qed.

(** What a returned observation is made of. *)
Lemma get_observation_Ok self obs :
  get_observation self = Ok obs ->
  ∃ jr qp qv qa xyz,
    Np.take (jnt_range (model self)) (independent_joints self) = Ok jr
    ∧ Np.take (qpos (data self)) (independent_joints self) = Ok qp
    ∧ Np.take (qvel (data self)) (independent_joints self) = Ok qv
    ∧ Np.take (qacc (data self)) (independent_joints self) = Ok qa
    ∧ get_geom_xpos (model self) (data self) fingertip = Ok xyz
    ∧ length xyz = 3%nat
    ∧ proprioception obs
      = qpos_block qp jr ++ qv ++ qa ++ xyz
        ++ (normalise <$> act (data self))
    ∧ (visual obs = None ↔ render_observations self = false).
Proof.
  unfold get_observation.
  destruct (Np.take (jnt_range _) _) as [jr|] eqn:Hjr; cbn [bind]; [|done].
  destruct (Np.take (qpos _) _) as [qp|] eqn:Hqp; cbn [bind]; [|done].
  destruct (take_Ok _ _ _ Hjr) as [Hljr _].
  destruct (take_Ok _ _ _ Hqp) as [Hlqp _].
  unfold Np.sub, Np.div.
  rewrite binop_same_length by (by rewrite !length_fmap). cbn [bind].
  rewrite binop_same_length
    by (rewrite length_zip_with, !length_fmap; lia). cbn [bind].
  rewrite binop_same_length
    by (rewrite !length_zip_with, !length_fmap; lia). cbn [bind].
  rewrite qpos_block_eq.
  destruct (Np.take (qvel _) _) as [qv|] eqn:Hqv; cbn [bind]; [|done].
  destruct (Np.take (qacc _) _) as [qa|] eqn:Hqa; cbn [bind]; [|done].
  destruct (get_geom_xpos _ _ _) as [xyz|] eqn:Hxyz; cbn [bind]; [|done].
  assert (length xyz = 3%nat) as Hlen.
  { unfold get_geom_xpos in Hxyz.
    destruct (name2id _ _); cbn [bind] in Hxyz; [|done].
    destruct (Np.getitem _ _) as [[[x y] z]|]; cbn [bind] in Hxyz; [|done].
    by injection Hxyz as <-. }
  intros Hobs. exists jr, qp, qv, qa, xyz. split_and!; try done.
  - destruct (render_observations self); [|by injection Hobs as <-].
    destruct (sim_render _ _ _ _ _) as [[rgb depth]|]; cbn [bind] in Hobs;
      [|done].
    destruct (concatenate_depth _ _); cbn [bind] in Hobs; [|done].
    by injection Hobs as <-.
  - destruct (render_observations self); [|by injection Hobs as <-].
    destruct (sim_render _ _ _ _ _) as [[rgb depth]|]; cbn [bind] in Hobs;
      [|done].
    destruct (concatenate_depth _ _); cbn [bind] in Hobs; [|done].
    by injection Hobs as <-.
Qed.

Lemma concatenate_depth_total (rgb : rgb_image) (depth : depth_image) :
  Forall2 (fun r z => length r = length z) rgb depth ->
  ∃ visual,
    concatenate_depth
      (reverse ((fun row : list (R * R * R) => rgb_pixel <$> row) <$> rgb))
      (reverse ((fun row : list R => normalise <$> row) <$> depth))
    = Ok visual.
Proof.
  intros Hshape. unfold concatenate_depth.
  rewrite decide_True; [by eexists|].
  apply Forall2_reverse, Forall2_fmap.
  eapply Forall2_impl; [done|]. intros r z Hrz. cbn.
  by rewrite !length_fmap.
Qed.

Lemma get_observation_total `{!MjSimLaws} self :
  ready self -> ∃ obs, get_observation self = Ok obs.
Proof.
  intros (Hidx & Hjr & Hqp & Hqv & Hqa & _ & (i & Hi & Hgeom) & Hrender).
  unfold get_observation.
  destruct (take_total (jnt_range (model self)) (independent_joints self))
    as [jr Ejr]; [by rewrite Hjr|].
  destruct (take_total (qpos (data self)) (independent_joints self))
    as [qp Eqp]; [eapply Forall_impl; [done|]; cbn; lia|].
  destruct (take_total (qvel (data self)) (independent_joints self))
    as [qv Eqv]; [eapply Forall_impl; [done|]; cbn; lia|].
  destruct (take_total (qacc (data self)) (independent_joints self))
    as [qa Eqa]; [eapply Forall_impl; [done|]; cbn; lia|].
  destruct (take_Ok _ _ _ Ejr) as [Hljr _].
  destruct (take_Ok _ _ _ Eqp) as [Hlqp _].
  rewrite Ejr, Eqp. cbn [bind]. unfold Np.sub, Np.div.
  rewrite binop_same_length by (by rewrite !length_fmap). cbn [bind].
  rewrite binop_same_length
    by (rewrite length_zip_with, !length_fmap; lia). cbn [bind].
  rewrite binop_same_length
    by (rewrite !length_zip_with, !length_fmap; lia). cbn [bind].
  rewrite Eqv, Eqa. cbn [bind].
  unfold get_geom_xpos. rewrite Hi. cbn [bind].
  destruct (lookup_lt_is_Some_2 _ _ Hgeom) as [[[x y] z] Hxyz].
  rewrite (getitem_nat _ _ _ Hxyz). cbn [bind].
  destruct (render_observations self) eqn:Hro; [|by eexists].
  destruct (Hrender eq_refl (data self)) as [[rgb depth] Hframe].
  rewrite Hframe. cbn [bind].
  destruct (concatenate_depth_total rgb depth) as [visual ->];
    [by eapply sim_render_shape|].
  cbn [bind]. by eexists.
Qed.



Lemma qpos_block_length (qp : list R) (jr : list (R * R)) :
  length jr = length qp -> length (qpos_block qp jr) = length qp.
Proof. intros Hl. unfold qpos_block. rewrite length_zip_with. lia. Qed.

Lemma sample_independent (name : string) :
  independent_of (Sample.arm [name] [])
    (dependent_of (Sample.arm [name] [])) = [0%Z].
Proof. vm_compute. reflexivity. Qed.

Lemma sample_ready (name : string) :
  ready (Sample.env "original" [name] [] None).
Proof.
  unfold ready, Sample.env.
  cbn [independent_joints model data render_observations].
  rewrite sample_independent.
  split_and!; cbn; try done; try lia.
  - repeat constructor; lia.
  - exists 0%nat. split; [by vm_compute|lia].
Qed.


End GetObservation.

(** ** reset *)
Section Reset.
Context {E : Type} `{!EffortTerm E} `{!MjSim}.
Implicit Types self : FixedEye.t E.













End Reset.

(** ** Activation normalisation *)
Section Normalise.
Context {E : Type} `{!EffortTerm E} `{!MjSim}.

(** C9 (get_observation, lines 112-113).  The activation block of an
    observation is [(a - 0.5) * 2] entry by entry.  This map sends [[0, 1]]
    into [[-1, 1]], is injective, and reaches every point of [[-1, 1]] from
    [[0, 1]]; [b/2 + 0.5] is its inverse on both sides, so
    [normalise (denormalise a) = a] for every [a], in [[0, 1]] or not. *)
Theorem normalise_activation_bijection :
  (∀ (self : FixedEye.t E) obs,
      get_observation self = Ok obs ->
      ∃ others, proprioception obs
                = others ++ (normalise <$> act (data self)))
  ∧ (∀ a, 0 <= a <= 1 -> -1 <= normalise a <= 1)
  ∧ (∀ a a', normalise a = normalise a' -> a = a')
  ∧ (∀ b, -1 <= b <= 1 -> ∃ a, 0 <= a <= 1 ∧ normalise a = b)
  ∧ (∀ a, 0 <= a <= 1 -> normalise (denormalise a) = a)
  ∧ (∀ b, normalise (denormalise b) = b)
  ∧ (∀ a, denormalise (normalise a) = a)
  ∧ (∀ b, -1 <= b <= 1 -> 0 <= denormalise b <= 1).
Proof.
  unfold normalise, denormalise. split_and!; try (intros; lra).
  - intros self obs Hobs.
    destruct (get_observation_Ok _ _ Hobs)
      as (jr & qp & qv & qa & xyz & _ & _ & _ & _ & _ & _ & -> & _).
    exists (qpos_block qp jr ++ qv ++ qa ++ xyz).
    by rewrite <- !app_assoc.
  - intros b Hb. exists (b / 2 + 0.5). lra.
Qed.

End Normalise.

(** ** Construction *)

(** A set and its complement in [all]. *)
Lemma complement_partition (all dep : gset Z) :
  dep ∩ (all ∖ dep) = ∅
  ∧ all ⊆ dep ∪ (all ∖ dep)
  ∧ (dep ∪ (all ∖ dep) = all ↔ dep ⊆ all).
Proof.
  split_and!.
  - apply set_eq. intros j.
    rewrite elem_of_intersection, elem_of_difference, elem_of_empty. tauto.
  - intros j Hj. rewrite elem_of_union, elem_of_difference.
    destruct (decide (j ∈ dep)); tauto.
  - split.
    + intros <- j Hj. rewrite elem_of_union. tauto.
    + intros Hsub. apply set_eq. intros j.
      rewrite elem_of_union, elem_of_difference. specialize (Hsub j).
      destruct (decide (j ∈ dep)); tauto.
Qed.

Section Init.
Context {E : Type} `{!EffortTerm E} `{!MjSim}.
Implicit Types self : FixedEye.t E.

(** What a successful [__init__] has computed. *)
Lemma init_Ok variant kw g m d self :
  init variant kw g m d = Ok self ->
  shoulder_variant self = variant
  ∧ dependent_joints self = dependent_of m
  ∧ independent_joints self = independent_of m (dependent_of m)
  ∧ resolve_shoulder variant m = Ok (eq_ID_shoulder1_r2 self)
  ∧ njnt (model self) = njnt m
  ∧ eqs (model self) = eqs m
  ∧ joint_names (model self) = joint_names m
  ∧ data self = d
  ∧ rng self = g.
Proof.
  unfold init.
  destruct (frame_skip_of _ _) as [skip|]; cbn [bind]; [|done].
  destruct (resolve_shoulder _ _) as [eq_id|]; cbn [bind]; [|done].
  destruct (frames_per_second_of _ _) as [fps|]; cbn [bind]; [|done].
  destruct (camera_name2id m _) as [cam|]; cbn [bind]; [|done].
  destruct (Np.setitem (cam_pos m) _ _) as [pos|]; cbn [bind]; [|done].
  destruct (camera_name2id _ _) as [cam'|]; cbn [bind]; [|done].
  destruct (Np.setitem _ _ _) as [quat|]; cbn [bind]; [|done].
  intros [= <-]. cbn. by split_and!.
Qed.

Lemma unique_elem_of (a : list Z) (j : Z) : j ∈ Np.unique a ↔ j ∈ a.
Proof.
  unfold Np.unique. rewrite merge_sort_Permutation.
  apply elem_of_remove_dups.
Qed.

Lemma unique_NoDup (a : list Z) : NoDup (Np.unique a).
Proof.
  unfold Np.unique. rewrite merge_sort_Permutation. apply NoDup_remove_dups.
Qed.

Lemma dependent_of_elem (m : mjModel) (j : Z) :
  j ∈ dependent_of m
  ↔ ∃ r, r ∈ eqs m ∧ astype_bool (eq_active r) = true ∧ eq_obj1id r = j.
Proof.
  unfold dependent_of. rewrite unique_elem_of, list_elem_of_fmap.
  split.
  - intros (r & -> & Hr). apply list_elem_of_filter in Hr as [Hact Hr].
    exists r. split_and!; [done| |done]. by destruct (astype_bool _).
  - intros (r & Hr & Hact & <-). exists r. split; [done|].
    apply list_elem_of_filter. split; [|done]. by rewrite Hact.
Qed.

Lemma independent_of_set (m : mjModel) (dependent : list Z) :
  joint_set (independent_of m dependent)
  = all_joints m ∖ joint_set dependent.
Proof.
  unfold joint_set, independent_of, all_joints.
  apply set_eq. intros j. by rewrite elem_of_list_to_set, elem_of_elements.
Qed.

Lemma independent_of_range (m : mjModel) (dependent : list Z) :
  Forall (fun j => 0 ≤ j < Z.of_nat (njnt m))%Z (independent_of m dependent).
Proof.
  apply Forall_forall. intros j. unfold independent_of.
  rewrite elem_of_elements, elem_of_difference, elem_of_list_to_set,
    elem_of_seqZ.
  lia.
Qed.

(** No method assigns the two joint lists. *)
Lemma set_ctrl_joints self action :
  dependent_joints (snd (set_ctrl action self)) = dependent_joints self
  ∧ independent_joints (snd (set_ctrl action self)) = independent_joints self.
Proof. unfold set_ctrl. run; by cbn. Qed.

Lemma reset_joints self :
  dependent_joints (snd (reset self)) = dependent_joints self
  ∧ independent_joints (snd (reset self)) = independent_joints self.
Proof. unfold reset. run; by cbn. Qed.

(** C3 (construction, lines 38-40).  What the code computes: after
    construction the dependent joints are the distinct first-object ids of
    the active equality constraints, the independent joints are the joint ids
    [0 .. njnt-1] that are not dependent, the two sets are disjoint, and their
    union contains every joint id.  The union is the set of joint ids exactly
    when every dependent id is a joint id.  Line 39 does not look at the type
    of a constraint, so this can fail: the code does not always give the
    partition of the joints that its comment at line 38 announces.
    [set_ctrl], [get_observation] (which returns no new state) and [reset]
    leave both lists as they are. *)
Theorem init_joint_partition variant kw g m d self :
  init variant kw g m d = Ok self ->
  let dependent := joint_set (dependent_joints self) in
  let independent := joint_set (independent_joints self) in
  (∀ j, j ∈ dependent_joints self
        ↔ ∃ r, r ∈ eqs m ∧ astype_bool (eq_active r) = true
               ∧ eq_obj1id r = j)
  ∧ NoDup (dependent_joints self)
  ∧ NoDup (independent_joints self)
  ∧ Forall (fun j => 0 ≤ j < Z.of_nat (njnt m))%Z (independent_joints self)
  ∧ independent = all_joints m ∖ dependent
  ∧ dependent ∩ independent = ∅
  ∧ all_joints m ⊆ dependent ∪ independent
  ∧ (dependent ∪ independent = all_joints m ↔ dependent ⊆ all_joints m)
  ∧ (∀ action,
       dependent_joints (snd (set_ctrl action self)) = dependent_joints self
       ∧ independent_joints (snd (set_ctrl action self))
         = independent_joints self)
  ∧ dependent_joints (snd (reset self)) = dependent_joints self
  ∧ independent_joints (snd (reset self)) = independent_joints self.
Proof.
  intros Hinit dependent independent.
  destruct (init_Ok _ _ _ _ _ _ Hinit) as (_ & Hdep & Hindep & _).
  assert (independent = all_joints m ∖ dependent) as Hcompl.
  { subst dependent independent. rewrite Hindep, Hdep.
    apply independent_of_set. }
  destruct (complement_partition (all_joints m) dependent)
    as (Hdisjoint & Hcover & Hexact).
  rewrite <- Hcompl in Hdisjoint, Hcover, Hexact.
  split_and!.
  - intros j. rewrite Hdep. apply dependent_of_elem.
  - rewrite Hdep. apply unique_NoDup.
  - rewrite Hindep. apply NoDup_elements.
  - rewrite Hindep. apply independent_of_range.
  - done.
  - done.
  - done.
  - done.
  - apply set_ctrl_joints.
  - apply reset_joints.
  - apply reset_joints.
Qed.

(** *** The shoulder constraint of the patch variants *)

Lemma id2name_Ok names id n :
  id2name names id = Ok n -> (0 ≤ id)%Z ∧ names !! Z.to_nat id = Some n.
Proof.
  unfold id2name. case_decide; [|done].
  destruct (names !! Z.to_nat id); [|done]. by intros [= ->].
Qed.

Lemma id2name_Raise names id e : id2name names id = Raise e -> e = ValueError.
Proof.
  unfold id2name. case_decide; [|congruence].
  destruct (names !! Z.to_nat id); congruence.
Qed.

Lemma id2name_total names id :
  (0 ≤ id < Z.of_nat (length names))%Z -> ∃ n, id2name names id = Ok n.
Proof.
  intros Hid. unfold id2name. rewrite decide_True by lia.
  destruct (lookup_lt_is_Some_2 names (Z.to_nat id)) as [n ->]; [lia|].
  by eexists.
Qed.

Lemma shoulder_row_Ok m r b :
  shoulder_row m r = Ok b -> b = tested r && couples m r.
Proof.
  unfold shoulder_row, couples, tested, joint_id2name.
  destruct (bool_decide (eq_type r = mjEQ_JOINT)); cbn [andb];
    [|by intros [= <-]].
  destruct (bool_decide (0 < eq_obj1id r)%Z); cbn [andb];
    [|by intros [= <-]].
  destruct (bool_decide (eq_obj2id r ≠ 0%Z)); cbn [andb];
    [|by intros [= <-]].
  destruct (id2name _ (eq_obj1id r)); cbn [bind]; [|done].
  destruct (id2name _ (eq_obj2id r)); cbn [bind]; [|done].
  by intros [= <-].
Qed.

Lemma shoulder_row_Raise m r e :
  shoulder_row m r = Raise e -> e = ValueError.
Proof.
  unfold shoulder_row, joint_id2name.
  destruct (_ && _); [|done].
  destruct (id2name _ (eq_obj1id r)) eqn:H1; cbn [bind];
    [|intros [= <-]; by eapply id2name_Raise].
  destruct (id2name _ (eq_obj2id r)) eqn:H2; cbn [bind]; [done|].
  intros [= <-]. by eapply id2name_Raise.
Qed.

Lemma shoulder_row_total m r :
  (tested r = true ->
   (0 ≤ eq_obj1id r < Z.of_nat (length (joint_names m)))%Z
   ∧ (0 ≤ eq_obj2id r < Z.of_nat (length (joint_names m)))%Z) ->
  ∃ b, shoulder_row m r = Ok b.
Proof.
  intros Hids. unfold shoulder_row, joint_id2name. fold (tested r).
  destruct (tested r); [|by eexists].
  destruct (Hids eq_refl) as [H1 H2].
  destruct (id2name_total _ _ H1) as [n1 ->].
  destruct (id2name_total _ _ H2) as [n2 ->]. cbn. by eexists.
Qed.

Lemma shoulder_rows_Ok m idx rows ids :
  shoulder_rows m idx rows = Ok ids ->
  ids = indices_from (fun r => tested r && couples m r) idx rows.
Proof.
  revert idx ids. induction rows as [|r rows IH]; intros idx ids; cbn.
  - by intros [= <-].
  - destruct (shoulder_row m r) as [b|] eqn:Hb; cbn [bind]; [|done].
    destruct (shoulder_rows m (S idx) rows) as [rest|] eqn:Hrest;
      cbn [bind]; [|done].
    intros [= <-]. rewrite <- (shoulder_row_Ok _ _ _ Hb).
    by rewrite (IH _ _ Hrest).
Qed.

Lemma shoulder_rows_Raise m idx rows e :
  shoulder_rows m idx rows = Raise e -> e = ValueError.
Proof.
  revert idx. induction rows as [|r rows IH]; intros idx; cbn; [done|].
  destruct (shoulder_row m r) as [b|] eqn:Hb; cbn [bind];
    [|intros [= <-]; by eapply shoulder_row_Raise].
  destruct (shoulder_rows m (S idx) rows) as [rest|] eqn:Hrest;
    cbn [bind]; [done|].
  intros [= <-]. by eapply IH.
Qed.

Lemma shoulder_rows_total m idx rows :
  Forall (fun r => tested r = true ->
            (0 ≤ eq_obj1id r < Z.of_nat (length (joint_names m)))%Z
            ∧ (0 ≤ eq_obj2id r < Z.of_nat (length (joint_names m)))%Z)
    rows ->
  ∃ ids, shoulder_rows m idx rows = Ok ids.
Proof.
  intros Hrows. revert idx.
  induction Hrows as [|r rows Hr _ IH]; intros idx; cbn; [by eexists|].
  destruct (shoulder_row_total m r Hr) as [b ->].
  destruct (IH (S idx)) as [rest ->]. cbn. by eexists.
Qed.

Lemma indices_from_ext (p q : eq_row -> bool) idx rows :
  (∀ r, r ∈ rows -> p r = q r) ->
  indices_from p idx rows = indices_from q idx rows.
Proof.
  revert idx. induction rows as [|r rows IH]; intros idx Hpq; cbn; [done|].
  rewrite (Hpq r) by left.
  rewrite (IH (S idx)); [done|]. intros r' Hr'. apply Hpq. by right.
Qed.

Lemma indices_from_elem (p : eq_row -> bool) idx rows k :
  k ∈ indices_from p idx rows ->
  ∃ r, rows !! (k - idx)%nat = Some r ∧ p r = true ∧ (idx ≤ k)%nat.
Proof.
  revert idx. induction rows as [|r rows IH]; intros idx; cbn.
  - by intros ?%elem_of_nil.
  - destruct (p r) eqn:Hp.
    + intros [->|Hk]%elem_of_cons.
      * exists r. rewrite Nat.sub_diag. by split_and!.
      * destruct (IH _ Hk) as (r' & Hr' & Hp' & Hle).
        exists r'. split_and!; [|done|lia].
        by replace (k - idx)%nat with (S (k - S idx)) by lia.
    + intros Hk. destruct (IH _ Hk) as (r' & Hr' & Hp' & Hle).
      exists r'. split_and!; [|done|lia].
      by replace (k - idx)%nat with (S (k - S idx)) by lia.
Qed.

Lemma pair_set_eq (n1 n2 : option string) (a b : string) :
  ({[n1; n2]} : gset (option string)) = {[Some a; Some b]} ->
  a ≠ b ->
  (n1 = Some a ∧ n2 = Some b) ∨ (n1 = Some b ∧ n2 = Some a).
Proof.
  intros Heq Hab.
  assert (n1 ∈ ({[Some a; Some b]} : gset (option string))) as H1
    by (rewrite <- Heq, elem_of_union, !elem_of_singleton; tauto).
  assert (n2 ∈ ({[Some a; Some b]} : gset (option string))) as H2
    by (rewrite <- Heq, elem_of_union, !elem_of_singleton; tauto).
  assert (Some a ∈ ({[n1; n2]} : gset (option string))) as Ha
    by (rewrite Heq, elem_of_union, !elem_of_singleton; tauto).
  assert (Some b ∈ ({[n1; n2]} : gset (option string))) as Hb
    by (rewrite Heq, elem_of_union, !elem_of_singleton; tauto).
  rewrite elem_of_union, !elem_of_singleton in H1, H2, Ha, Hb.
  destruct H1 as [->| ->], H2 as [->| ->]; try tauto.
  - destruct Hb as [[=]|[=]]; congruence.
  - destruct Ha as [[=]|[=]]; congruence.
Qed.

Lemma couples_true m r :
  couples m r = true ->
  eq_type r = mjEQ_JOINT
  ∧ (0 ≤ eq_obj1id r)%Z ∧ (0 ≤ eq_obj2id r)%Z
  ∧ ∃ a b,
      joint_names m !! Z.to_nat (eq_obj1id r) = Some (Some a)
      ∧ joint_names m !! Z.to_nat (eq_obj2id r) = Some (Some b)
      ∧ ((a = "shoulder1_r2" ∧ b = "elv_angle")
         ∨ (a = "elv_angle" ∧ b = "shoulder1_r2")).
Proof.
  unfold couples, joint_id2name. intros [Htype Hnames]%andb_true_iff.
  apply bool_decide_eq_true in Htype.
  destruct (id2name _ (eq_obj1id r)) as [n1|] eqn:H1; [|done].
  destruct (id2name _ (eq_obj2id r)) as [n2|] eqn:H2; [|done].
  apply bool_decide_eq_true in Hnames.
  apply id2name_Ok in H1 as [? H1], H2 as [? H2].
  split_and!; [done..|].
  destruct (pair_set_eq _ _ _ _ Hnames) as [[-> ->]|[-> ->]]; [done|..].
  - exists "shoulder1_r2", "elv_angle". by split_and!; [..|left].
  - exists "elv_angle", "shoulder1_r2". by split_and!; [..|right].
Qed.

(** With unique names, once one row passes the tests on its ids, every
    coupling row passes them: its objects are the same two joints. *)
Lemma couples_tested m r r' :
  unique_names (joint_names m) ->
  tested r = true -> couples m r = true ->
  couples m r' = true -> tested r' = true.
Proof.
  intros Huniq Ht Hc Hc'.
  apply couples_true in Hc as (_ & P1 & P2 & a & b & Ha & Hb & Hab).
  apply couples_true in Hc' as (Hty & Q1 & Q2 & a' & b' & Ha' & Hb' & Hab').
  unfold tested in *.
  apply andb_true_iff in Ht as [Ht T2].
  apply andb_true_iff in Ht as [_ T1].
  apply bool_decide_eq_true in T1, T2.
  rewrite !andb_true_iff, !bool_decide_eq_true.
  assert (Z.to_nat (eq_obj1id r') = Z.to_nat (eq_obj1id r)
          ∨ Z.to_nat (eq_obj1id r') = Z.to_nat (eq_obj2id r)) as H1.
  { destruct Hab as [[-> ->]|[-> ->]], Hab' as [[-> ->]|[-> ->]];
      eauto using Huniq. }
  assert (Z.to_nat (eq_obj2id r') = Z.to_nat (eq_obj1id r)
          ∨ Z.to_nat (eq_obj2id r') = Z.to_nat (eq_obj2id r)) as H2.
  { destruct Hab as [[-> ->]|[-> ->]], Hab' as [[-> ->]|[-> ->]];
      eauto using Huniq. }
  split_and!; [done|lia|lia].
Qed.

(** C5 (construction, lines 42-51).  What the code does: with a patch
    variant and unique joint names, construction succeeds only if exactly one
    constraint of joint type links the joints named [shoulder1_r2] and
    [elv_angle], and then the index of this constraint is what is cached.
    When the number of such constraints is not one, construction fails: no
    environment is returned.  The failure is the assertion error when the
    frame skip could be computed and every id whose name the search asks for
    is a joint id.  The guard of line 46 tests the second id for truth only,
    so the [-1] of a constraint on a single joint passes it, and the name
    lookup raises [ValueError] before the assertion of line 50 is reached:
    there the code fails otherwise than by the assertion it is written to
    fail by. *)
Theorem init_patch_needs_one_shoulder_constraint variant kw g m d :
  is_patch variant = true ->
  unique_names (joint_names m) ->
  (∀ self, init variant kw g m d = Ok self ->
     ∃ k r, coupling_indices m = [k]
            ∧ eq_ID_shoulder1_r2 self = Some k
            ∧ eqs m !! k = Some r ∧ couples m r = true)
  ∧ (length (coupling_indices m) ≠ 1%nat ->
     ∃ e, init variant kw g m d = Raise e)
  ∧ (length (coupling_indices m) ≠ 1%nat ->
     kwargs_get (kw_action_sample_freq kw) 10 ≠ 0 ->
     names_resolve m ->
     init variant kw g m d = Raise AssertionError)
  ∧ (kwargs_get (kw_action_sample_freq kw) 10 ≠ 0 ->
     ¬ (∃ ids, shoulder_rows m 0 (eqs m) = Ok ids) ->
     init variant kw g m d = Raise ValueError).
Proof.
  intros Hpatch Huniq.
  assert (∀ k, shoulder_rows m 0 (eqs m) = Ok [k] ->
               ∃ r, coupling_indices m = [k]
                    ∧ eqs m !! k = Some r ∧ couples m r = true) as Hone.
  { intros k Hrows. apply shoulder_rows_Ok in Hrows.
    destruct (indices_from_elem (fun r => tested r && couples m r) 0
                (eqs m) k) as (r & Hr & Hp & _).
    { rewrite <- Hrows. by left. }
    rewrite Nat.sub_0_r in Hr. apply andb_true_iff in Hp as [Ht Hc].
    exists r. split_and!; [|done..].
    unfold coupling_indices. rewrite Hrows. apply indices_from_ext.
    intros r' _. destruct (couples m r') eqn:Hc'.
    - by rewrite (couples_tested m r r').
    - by rewrite andb_false_r. }
  assert (∀ o, resolve_shoulder variant m = Ok o ->
               ∃ k, o = Some k ∧ shoulder_rows m 0 (eqs m) = Ok [k])
    as Hresolve.
  { intros o. unfold resolve_shoulder. rewrite Hpatch.
    destruct (shoulder_rows m 0 (eqs m)) as [ids|]; cbn [bind]; [|done].
    unfold assert. case_bool_decide as Hlen; cbn [bind]; [|done].
    destruct ids as [|k [|? ?]]; try done. intros [= <-]. by exists k. }
  assert (∀ self, init variant kw g m d = Ok self ->
     ∃ k r, coupling_indices m = [k]
            ∧ eq_ID_shoulder1_r2 self = Some k
            ∧ eqs m !! k = Some r ∧ couples m r = true) as Hsuccess.
  { intros self Hinit.
    destruct (init_Ok _ _ _ _ _ _ Hinit) as (_ & _ & _ & Hres & _).
    destruct (Hresolve _ Hres) as (k & Hk & Hrows).
    destruct (Hone k Hrows) as (r & ? & ? & ?). by exists k, r. }
  split_and!.
  - done.
  - intros Hcount. destruct (init variant kw g m d) as [self|e] eqn:Hinit;
      [|by exists e].
    destruct (Hsuccess self eq_refl) as (k & r & Hk & _).
    by rewrite Hk in Hcount.
  - intros Hcount Hfreq Hnames. unfold init, frame_skip_of.
    rewrite decide_False by lra. cbn [bind].
    unfold resolve_shoulder. rewrite Hpatch.
    destruct (shoulder_rows_total m 0 (eqs m) Hnames) as [ids Hids].
    rewrite Hids. cbn [bind]. unfold assert.
    case_bool_decide as Hlen; [|done].
    destruct ids as [|k [|? ?]]; try done.
    destruct (Hone k Hids) as (r & Hk & _). by rewrite Hk in Hcount.
  - intros Hfreq Hraise. unfold init, frame_skip_of.
    rewrite decide_False by lra. cbn [bind].
    unfold resolve_shoulder. rewrite Hpatch.
    destruct (shoulder_rows m 0 (eqs m)) as [ids|e] eqn:Hrows.
    + destruct Hraise. by exists ids.
    + cbn [bind]. by rewrite (shoulder_rows_Raise _ _ _ _ Hrows).
Qed.

End Init.

(** ** generate_sine_wave *)
Section SineWave.
Import Tracking.

Lemma foldl_Rmin (x : R) (a : list R) : is_min (foldl Rmin x a) (x :: a).
Proof.
  revert x. induction a as [|y a IH]; intros x; cbn.
  - split; [left|]. intros z ->%list_elem_of_singleton. lra.
  - destruct (IH (Rmin x y)) as [Hin Hle]. split.
    + apply elem_of_cons in Hin as [->|Hin]; [|by do 2 right].
      unfold Rmin. destruct (Rle_dec x y); [left|right; left].
    + intros z Hz. assert (foldl Rmin (Rmin x y) a <= Rmin x y) as Hm
        by (apply Hle; left).
      apply elem_of_cons in Hz as [->|[->|Hz]%elem_of_cons].
      * pose proof (Rmin_l x y). lra.
      * pose proof (Rmin_r x y). lra.
      * apply Hle. by right.
Qed.

Lemma foldl_Rmax (x : R) (a : list R) : is_max (foldl Rmax x a) (x :: a).
Proof.
  revert x. induction a as [|y a IH]; intros x; cbn.
  - split; [left|]. intros z ->%list_elem_of_singleton. lra.
  - destruct (IH (Rmax x y)) as [Hin Hle]. split.
    + apply elem_of_cons in Hin as [->|Hin]; [|by do 2 right].
      unfold Rmax. destruct (Rle_dec x y); [right; left|left].
    + intros z Hz. assert (Rmax x y <= foldl Rmax (Rmax x y) a) as Hm
        by (apply Hle; left).
      apply elem_of_cons in Hz as [->|[->|Hz]%elem_of_cons].
      * pose proof (Rmax_l x y). lra.
      * pose proof (Rmax_r x y). lra.
      * apply Hle. by right.
Qed.

Lemma np_min_Ok (a : list R) (m : R) : np_min a = Ok m -> is_min m a.
Proof. destruct a; [done|]. intros [= <-]. apply foldl_Rmin. Qed.

Lemma np_max_Ok (a : list R) (m : R) : np_max a = Ok m -> is_max m a.
Proof. destruct a; [done|]. intros [= <-]. apply foldl_Rmax. Qed.

Lemma np_min_total (a : list R) : a ≠ [] -> ∃ m, np_min a = Ok m.
Proof. destruct a; [done|]. by eexists. Qed.

Lemma np_max_total (a : list R) : a ≠ [] -> ∃ m, np_max a = Ok m.
Proof. destruct a; [done|]. by eexists. Qed.

Lemma is_min_unique (m m' : R) (a : list R) :
  is_min m a -> is_min m' a -> m = m'.
Proof. intros [H1 H2] [H3 H4]. apply H2 in H3. apply H4 in H1. lra. Qed.

Lemma is_max_unique (m m' : R) (a : list R) :
  is_max m a -> is_max m' a -> m = m'.
Proof. intros [H1 H2] [H3 H4]. apply H2 in H3. apply H4 in H1. lra. Qed.

(** A monotone map sends the least entry to the least entry, an antitone one
    to the greatest. *)
Lemma is_min_fmap_mono (f : R -> R) (m : R) (a : list R) :
  (∀ x, m <= x -> f m <= f x) -> is_min m a -> is_min (f m) (f <$> a).
Proof.
  intros Hf [Hin Hle]. split; [by apply list_elem_of_fmap_2|].
  intros y (x & -> & Hx)%list_elem_of_fmap. auto.
Qed.

Lemma is_max_fmap_mono (f : R -> R) (m : R) (a : list R) :
  (∀ x, x <= m -> f x <= f m) -> is_max m a -> is_max (f m) (f <$> a).
Proof.
  intros Hf [Hin Hle]. split; [by apply list_elem_of_fmap_2|].
  intros y (x & -> & Hx)%list_elem_of_fmap. auto.
Qed.

Lemma is_max_fmap_anti (f : R -> R) (m : R) (a : list R) :
  (∀ x, m <= x -> f x <= f m) -> is_min m a -> is_max (f m) (f <$> a).
Proof.
  intros Hf [Hin Hle]. split; [by apply list_elem_of_fmap_2|].
  intros y (x & -> & Hx)%list_elem_of_fmap. auto.
Qed.

Lemma is_min_fmap_anti (f : R -> R) (m : R) (a : list R) :
  (∀ x, x <= m -> f m <= f x) -> is_max m a -> is_min (f m) (f <$> a).
Proof.
  intros Hf [Hin Hle]. split; [by apply list_elem_of_fmap_2|].
  intros y (x & -> & Hx)%list_elem_of_fmap. auto.
Qed.

(** The rescaling, for a sum that is not constant: the least entry goes to
    [limits[0]] and the greatest to [limits[1]]. *)
Lemma fit_limits_extremes (limits : R * R) (sine : list R) :
  sine ≠ [] ->
  ∃ out lo hi,
    fit_limits limits sine = Ok out
    ∧ length out = length sine
    ∧ is_min lo sine ∧ is_max hi sine
    ∧ (not_constant sine ->
       lo < hi
       ∧ out = (fun x => fst limits
                         + (snd limits - fst limits) * ((x - lo) / (hi - lo)))
               <$> sine).
Proof.
  intros Hne. destruct limits as [l0 l1]. unfold fit_limits. cbn [fst snd].
  destruct (np_min_total sine Hne) as [lo Hlo]. rewrite Hlo. cbn [bind].
  destruct (np_max_total sine Hne) as [hi Hhi].
  apply np_min_Ok in Hlo. apply np_max_Ok in Hhi.
  destruct (np_max_total ((fun x => x - lo) <$> sine)) as [h Hh].
  { by destruct sine. }
  rewrite Hh. cbn [bind]. apply np_max_Ok in Hh.
  assert (h = hi - lo) as ->.
  { apply (is_max_unique _ _ ((fun x => x - lo) <$> sine)); [done|].
    apply (is_max_fmap_mono (fun x => x - lo)); [|done]. intros; lra. }
  exists ((fun x => l0 + (l1 - l0) * x)
          <$> ((fun x => x / (hi - lo)) <$> ((fun x => x - lo) <$> sine))).
  exists lo, hi. split_and!; [done| |done..|].
  - by rewrite !length_fmap.
  - intros (x & y & Hx & Hy & Hxy).
    destruct Hlo as [_ Hlo], Hhi as [_ Hhi].
    pose proof (Hlo x Hx). pose proof (Hlo y Hy).
    pose proof (Hhi x Hx). pose proof (Hhi y Hy).
    split; [lra|]. rewrite <- !list_fmap_compose. done.
Qed.

Lemma fit_limits_min_max (limits : R * R) (sine out : list R) :
  fit_limits limits sine = Ok out ->
  not_constant sine ->
  (fst limits <= snd limits ->
   np_min out = Ok (fst limits) ∧ np_max out = Ok (snd limits))
  ∧ (snd limits <= fst limits ->
     np_min out = Ok (snd limits) ∧ np_max out = Ok (fst limits)).
Proof.
  intros Hfit Hnc.
  assert (sine ≠ []) as Hne.
  { destruct Hnc as (x & _ & Hx & _). intros ->. by apply elem_of_nil in Hx. }
  destruct (fit_limits_extremes limits sine Hne)
    as (out' & lo & hi & Hfit' & Hlen & Hlo & Hhi & Hout).
  rewrite Hfit in Hfit'. injection Hfit' as <-.
  destruct (Hout Hnc) as [Hlt ->]. clear Hout.
  destruct limits as [l0 l1]. cbn [fst snd].
  set (f := fun x => l0 + (l1 - l0) * ((x - lo) / (hi - lo))).
  assert (f lo = l0) as Hflo by (unfold f; field; lra).
  assert (f hi = l1) as Hfhi by (unfold f; field; lra).
  assert (0 < / (hi - lo)) as Hinv by (apply Rinv_0_lt_compat; lra).
  assert (f <$> sine ≠ []) as Hne' by (by destruct sine).
  destruct (np_min_total _ Hne') as [m Hm].
  destruct (np_max_total _ Hne') as [M HM].
  rewrite Hm, HM. apply np_min_Ok in Hm. apply np_max_Ok in HM.
  split; intros Hl.
  - assert (∀ x y, x <= y -> f x <= f y) as Hmono.
    { intros x y Hxy. unfold f, Rdiv.
      assert ((x - lo) * / (hi - lo) <= (y - lo) * / (hi - lo)) by nra.
      nra. }
    split; f_equal.
    + rewrite <- Hflo. apply (is_min_unique _ _ (f <$> sine)); [done|].
      apply is_min_fmap_mono; [|done]. intros; by apply Hmono.
    + rewrite <- Hfhi. apply (is_max_unique _ _ (f <$> sine)); [done|].
      apply is_max_fmap_mono; [|done]. intros; by apply Hmono.
  - assert (∀ x y, x <= y -> f y <= f x) as Hanti.
    { intros x y Hxy. unfold f, Rdiv.
      assert ((x - lo) * / (hi - lo) <= (y - lo) * / (hi - lo)) by nra.
      nra. }
    split; f_equal.
    + rewrite <- Hfhi. apply (is_min_unique _ _ (f <$> sine)); [done|].
      apply is_min_fmap_anti; [|done]. intros; by apply Hanti.
    + rewrite <- Hflo. apply (is_max_unique _ _ (f <$> sine)); [done|].
      apply is_max_fmap_anti; [|done]. intros; by apply Hanti.
Qed.

(** *** The sum of the components *)

Lemma times_length (n : nat) (dt : R) : length (times n dt) = n.
Proof. unfold times. rewrite length_fmap, length_seqZ. lia. Qed.

Lemma times_lookup (n k : nat) (dt : R) :
  (k < n)%nat -> times n dt !! k = Some (IZR (Z.of_nat k) * dt).
Proof.
  intros Hk. unfold times. rewrite list_lookup_fmap, lookup_seqZ_lt by lia.
  cbn. by rewrite Z.add_0_l.
Qed.

Lemma components_length n g lo hi (t sine : list R) :
  length t = length sine ->
  length (components n g lo hi t sine).1 = length sine.
Proof.
  revert g sine. induction n as [|n IH]; intros g sine Hlen; cbn; [done|].
  rewrite IH; rewrite length_zip_with, length_fmap; lia.
Qed.

Lemma components_lookup n g lo hi (t sine : list R) k tk s :
  t !! k = Some tk -> sine !! k = Some s ->
  (components n g lo hi t sine).1 !! k = Some (s + wave_sum n g lo hi tk).
Proof.
  revert g sine s. induction n as [|n IH]; intros g sine s Ht Hs; cbn.
  - rewrite Hs. f_equal. lra.
  - erewrite IH; [|done|].
    + f_equal. rewrite <- Rplus_assoc. reflexivity.
    + rewrite lookup_zip_with, Hs. cbn. rewrite list_lookup_fmap, Ht.
      reflexivity.
Qed.

Lemma raw_sine_length {E} (env : FixedEye.t E) n lo hi :
  length (raw_sine env n lo hi).1 = 1001%nat.
Proof.
  unfold raw_sine. rewrite components_length.
  - by rewrite length_replicate, times_length.
  - by rewrite length_replicate.
Qed.

Lemma raw_sine_lookup {E} (env : FixedEye.t E) n lo hi (k : nat) :
  (k < 1001)%nat ->
  (raw_sine env n lo hi).1 !! k
  = Some (0 + wave_sum n (rng env) lo hi (IZR (Z.of_nat k) * dt env)).
Proof.
  intros Hk. unfold raw_sine. apply components_lookup.
  - by apply times_lookup.
  - apply lookup_replicate_2. rewrite times_length. lia.
Qed.

Lemma generate_sine_wave_run {E} (env : FixedEye.t E) limits n lo hi :
  (generate_sine_wave limits n lo hi env).1
  = fit_limits limits (raw_sine env n lo hi).1.
Proof.
  unfold generate_sine_wave. cbn [bindM get].
  destruct (raw_sine env n lo hi) as [sine g]. reflexivity.
Qed.


End SineWave.

(** * The sample environments *)

#[export] Instance sim_at_rest_laws : @MjSimLaws Sample.sim_at_rest.
Proof.
  split.
  - intros m d. by repeat split.
  - intros m d. by repeat split.
  - intros m d w h cam rgb depth [= <- <-].
    induction h as [|h IH]; cbn; constructor; [|done].
    by rewrite !length_replicate.
Qed.

Lemma int_IZR (z : Z) : (0 ≤ z)%Z -> int (IZR z) = z.
Proof.
  intros Hz. unfold int. destruct (Rle_dec 0 (IZR z)) as [_|Hneg].
  - symmetry. apply Int_part_spec. lra.
  - destruct Hneg. by apply IZR_le.
Qed.

Lemma np_round_IZR (z : Z) : np_round (IZR z) = IZR z.
Proof.
  unfold np_round.
  assert (Int_part (IZR z) = z) as -> by (symmetry; apply Int_part_spec; lra).
  destruct (Rlt_dec _ _) as [_|Hd]; [done|]. destruct Hd. lra.
Qed.

Section SampleInit.
Context {E : Type} `{!EffortTerm E}.

(** Construction on a sample arm gets as far as the shoulder constraint and,
    past it, to the end. *)
Lemma init_arm variant names rows g d :
  init (E:=E) variant no_kwargs g (Sample.arm names rows) d
  = let* eq_id := resolve_shoulder variant (Sample.arm names rows) in
    Ok (FixedEye.Make variant 10 0.002 50 g
          (with_cam_quat
             (with_cam_pos (Sample.arm names rows)
                [(1.5, -1.5, 0.9); (0, 0, 0)])
             [(0.6582, 0.6577, 0.2590, 0.2588); (1, 0, 0, 0)])
          d (dependent_of (Sample.arm names rows))
          (independent_of (Sample.arm names rows)
             (dependent_of (Sample.arm names rows)))
          eq_id ([-1], [1]) effort_zero true 80%nat 120%nat 10).
Proof.
  unfold init, no_kwargs. cbn [kwargs_get kw_action_sample_freq
    kw_effort_term kw_render_observations kw_ocular_image_height
    kw_ocular_image_width].
  unfold frame_skip_of. rewrite decide_False by lra. cbn [bind].
  replace (1 / (0.002 * 10)) with (IZR 50) by lra.
  rewrite int_IZR by lia.
  destruct (resolve_shoulder _ _) as [eq_id|]; cbn [bind]; [|done].
  unfold frames_per_second_of. cbn [opt_timestep Sample.arm].
  rewrite decide_False by lra. cbn [bind].
  replace (1 / (0.002 * 50)) with (IZR 10) by lra.
  rewrite np_round_IZR, int_IZR by lia.
  reflexivity.
Qed.

End SampleInit.

Import Sample.


(** C2 on the one-joint sample: activation [0.5], action [0.7]. *)
Lemma set_ctrl_clips_activation_plus_action_witness :
  length [0.7] = length (act (data one_joint))
  ∧ length (ctrl (data one_joint)) = length (act (data one_joint))
  ∧ ctrl (data (snd (set_ctrl [0.7] one_joint)))
    = [Np.clip1 0 1 (0.5 + 0.7)]
  ∧ Forall (fun c => 0 <= c <= 1)
      (ctrl (data (snd (set_ctrl [0.7] one_joint)))).
Proof.
  destruct (set_ctrl_clips_activation_plus_action one_joint [0.7]
              eq_refl eq_refl) as (Hwritten & _ & Hbounds).
  split_and!; [reflexivity|reflexivity|exact Hwritten|exact Hbounds].
Defined.

(** C10 on the one-joint sample, variant [original]. *)
Lemma set_ctrl_writes_only_ctrl_witness :
  is_patch (shoulder_variant one_joint) = false
  ∧ model (snd (set_ctrl [0.7] one_joint)) = model one_joint
  ∧ qpos (data (snd (set_ctrl [0.7] one_joint))) = qpos (data one_joint)
  ∧ act (data (snd (set_ctrl [0.7] one_joint))) = act (data one_joint).
Proof.
  destruct (set_ctrl_writes_only_ctrl one_joint [0.7])
    as (_ & Hqpos & _ & Hact & _ & _ & Hmodel & _).
  split_and!; [reflexivity|exact (Hmodel eq_refl)|exact Hqpos|exact Hact].
Defined.

Lemma qpos_of_patched : qpos_of patched "shoulder_elv" = Ok 2.
Proof. reflexivity. Qed.

(** C4 on the patched sample: elevation [2]. *)
Lemma set_ctrl_shoulder_coefficient_witness :
  is_patch (shoulder_variant patched) = true
  ∧ length [0.1] = length (act (data patched))
  ∧ length (ctrl (data patched)) = length (act (data patched))
  ∧ eq_ID_shoulder1_r2 patched = Some 0%nat
  ∧ eqs (model patched) !! 0%nat = Some shoulder_coupling
  ∧ (1 < length (eq_data shoulder_coupling))%nat
  ∧ qpos_of patched "shoulder_elv" = Ok 2
  ∧ ∃ r', eqs (model (snd (set_ctrl [0.1] patched))) !! 0%nat = Some r'
          ∧ eq_data r' !! 1%nat = Some (- ((PI - 2 * 2) / PI)).
Proof.
  assert (1 < length (eq_data shoulder_coupling))%nat as Hcol by (cbn; lia).
  destruct (set_ctrl_shoulder_coefficient (E:=nat)) as (_ & Hwrite & _).
  destruct (Hwrite patched [0.1] 0%nat shoulder_coupling 2
              eq_refl eq_refl eq_refl eq_refl eq_refl Hcol qpos_of_patched)
    as (r' & Hrow & Hcoef & _).
  split_and!; try reflexivity; [exact Hcol|].
  exists r'. split; [exact Hrow|exact Hcoef].
Defined.

Lemma one_joint_ready : ready one_joint.
Proof. apply sample_ready. Qed.




(** C9 at the activation [0.25] and the normalised value [0.5]. *)
Lemma normalise_activation_bijection_witness :
  0 <= 0.25 <= 1
  ∧ -1 <= normalise 0.25 <= 1
  ∧ normalise (denormalise 0.25) = 0.25
  ∧ ∃ a, 0 <= a <= 1 ∧ normalise a = 0.5.
Proof.
  destruct (normalise_activation_bijection (E:=nat))
    as (_ & Hinto & _ & Honto & Hround & _).
  assert (0 <= 0.25 <= 1) as Ha by lra.
  assert (-1 <= 0.5 <= 1) as Hb by lra.
  split; [exact Ha|]. split; [exact (Hinto _ Ha)|].
  split; [exact (Hround _ Ha)|exact (Honto _ Hb)].
Defined.

(** *** Construction on the samples *)

Lemma init_welded :
  ∃ self : FixedEye.t nat,
    init "original" no_kwargs (constant_rng 0) welded
      (arm_data ["elv_angle"; "shoulder_elv"]) = Ok self.
Proof. unfold welded. rewrite init_arm. by eexists. Qed.

Lemma dependent_of_welded : dependent_of welded = [5%Z].
Proof. vm_compute. reflexivity. Qed.

(** The failing input of C3.  On the welded sample the dependent set holds
    the body id [5], so the union of the two sets is not the set of the two
    joint ids: line 39 has read the first object of a weld as a joint. *)
Lemma joint_partition_counterexample :
  ∃ self : FixedEye.t nat,
    init "original" no_kwargs (constant_rng 0) welded
      (arm_data ["elv_angle"; "shoulder_elv"]) = Ok self
    ∧ joint_set (dependent_joints self) ∪ joint_set (independent_joints self)
      ≠ all_joints welded.
Proof.
  destruct init_welded as [self Hinit]. exists self. split; [done|].
  destruct (init_Ok _ _ _ _ _ _ Hinit) as (_ & Hdep & _).
  intros Heq.
  assert (5%Z ∈ all_joints welded) as Hin.
  { rewrite <- Heq, elem_of_union. left. unfold joint_set.
    rewrite elem_of_list_to_set, Hdep, dependent_of_welded. left. }
  unfold all_joints in Hin.
  rewrite elem_of_list_to_set, elem_of_seqZ in Hin. cbn in Hin. lia.
Qed.

(** C3 on the welded sample: what holds of the two lists there. *)
Lemma init_joint_partition_witness :
  ∃ self : FixedEye.t nat,
    init "original" no_kwargs (constant_rng 0) welded
      (arm_data ["elv_angle"; "shoulder_elv"]) = Ok self
    ∧ NoDup (independent_joints self)
    ∧ joint_set (independent_joints self)
      = all_joints welded ∖ joint_set (dependent_joints self)
    ∧ joint_set (dependent_joints self) ∩ joint_set (independent_joints self)
      = ∅
    ∧ all_joints welded
      ⊆ joint_set (dependent_joints self)
        ∪ joint_set (independent_joints self).
Proof.
  destruct init_welded as [self Hinit]. exists self.
  destruct (init_joint_partition _ _ _ _ _ _ Hinit)
    as (_ & _ & Hnodup & _ & Hcompl & Hdisjoint & Hcover & _).
  split; [exact Hinit|]. split; [exact Hnodup|]. split; [exact Hcompl|].
  split; [exact Hdisjoint|exact Hcover].
Defined.

Lemma shoulder_names_unique : unique_names (joint_names coupled).
Proof.
  intros i j n Hi Hj.
  destruct i as [|[|[|[|i]]]], j as [|[|[|[|j]]]]; vm_compute in Hi, Hj;
    congruence.
Qed.

Lemma resolve_shoulder_coupled :
  resolve_shoulder "patch-v1" coupled = Ok (Some 0%nat).
Proof. vm_compute. reflexivity. Qed.

Lemma resolve_shoulder_single :
  resolve_shoulder "patch-v1" single = Raise ValueError.
Proof. vm_compute. reflexivity. Qed.

Lemma coupling_indices_coupled : coupling_indices coupled = [0%nat].
Proof. vm_compute. reflexivity. Qed.

Lemma coupling_indices_single : coupling_indices single = [].
Proof. vm_compute. reflexivity. Qed.

(** The failing input of C5.  On the sample with a constraint on a single
    joint, no constraint links the two joints and construction fails with
    the [ValueError] of the name lookup, not with the assertion error that
    line 50 is there to raise. *)
Lemma shoulder_assertion_counterexample :
  is_patch "patch-v1" = true
  ∧ length (coupling_indices single) ≠ 1%nat
  ∧ init (E:=nat) "patch-v1" no_kwargs (constant_rng 0) single
      (arm_data shoulder_names) = Raise ValueError
  ∧ init (E:=nat) "patch-v1" no_kwargs (constant_rng 0) single
      (arm_data shoulder_names) ≠ Raise AssertionError.
Proof.
  assert (init (E:=nat) "patch-v1" no_kwargs (constant_rng 0) single
            (arm_data shoulder_names) = Raise ValueError) as Hinit.
  { unfold single. rewrite init_arm. fold single.
    by rewrite resolve_shoulder_single. }
  split_and!; [done| |done|by rewrite Hinit].
  by rewrite coupling_indices_single.
Qed.

Lemma init_coupled :
  ∃ self : FixedEye.t nat,
    init "patch-v1" no_kwargs (constant_rng 0) coupled
      (arm_data shoulder_names) = Ok self.
Proof.
  unfold coupled. rewrite init_arm. fold coupled.
  rewrite resolve_shoulder_coupled. by eexists.
Qed.

(** C5 on the coupled sample. *)
Lemma init_patch_needs_one_shoulder_constraint_witness :
  is_patch "patch-v1" = true
  ∧ unique_names (joint_names coupled)
  ∧ ∃ self : FixedEye.t nat,
      init "patch-v1" no_kwargs (constant_rng 0) coupled
        (arm_data shoulder_names) = Ok self
      ∧ coupling_indices coupled = [0%nat]
      ∧ eq_ID_shoulder1_r2 self = Some 0%nat.
Proof.
  split; [reflexivity|]. split; [exact shoulder_names_unique|].
  destruct init_coupled as [self Hinit]. exists self.
  split; [exact Hinit|]. split; [exact coupling_indices_coupled|].
  destruct (init_patch_needs_one_shoulder_constraint (E:=nat) "patch-v1"
              no_kwargs (constant_rng 0) coupled (arm_data shoulder_names)
              eq_refl shoulder_names_unique) as (Hsuccess & _).
  destruct (Hsuccess self Hinit) as (k & r & Hk & Hid & _).
  rewrite coupling_indices_coupled in Hk. injection Hk as <-. exact Hid.
Defined.

(** *** The sine wave on the one-joint sample *)

Lemma one_joint_wave_sum (tk : R) :
  wave_sum 5 (rng one_joint) 1 5 tk = 5 * sin (PI / 50 * tk).
Proof.
  cbn [wave_sum Rng.uniform1 Rng.draws Rng.cursor rng
       one_joint Sample.env constant_rng].
  replace ((0.01 + (0.5 - 0.01) * 0) * 2 * PI * tk + (0 + (2 * PI - 0) * 0))
    with (PI / 50 * tk) by lra.
  lra.
Qed.

Lemma one_joint_dt : dt one_joint = 0.1.
Proof.
  unfold dt, one_joint, Sample.env.
  cbn [model frame_skip arm opt_timestep]. lra.
Qed.

Lemma one_joint_raw_not_constant :
  not_constant (Tracking.raw_sine one_joint 5 1 5).1.
Proof.
  exists 0, 5. split_and!.
  - apply list_elem_of_lookup. exists 0%nat.
    rewrite raw_sine_lookup by lia. f_equal.
    rewrite one_joint_wave_sum, one_joint_dt.
    change (Z.of_nat 0) with 0%Z.
    replace (PI / 50 * (0 * 0.1)) with 0 by lra.
    rewrite sin_0. lra.
  - apply list_elem_of_lookup. exists 250%nat.
    rewrite raw_sine_lookup by lia. f_equal.
    rewrite one_joint_wave_sum, one_joint_dt.
    change (Z.of_nat 250) with 250%Z.
    replace (PI / 50 * (250 * 0.1)) with (PI / 2) by lra.
    rewrite sin_PI2. lra.
  - lra.
Qed.

(** Limits in reverse order, which no caller passes: for [(1, 0)] the least
    entry is [0] and the greatest is [1]. *)
Lemma sine_wave_reversed_limits :
  ∃ sine,
    (Tracking.generate_sine_wave (1, 0) 5 1 5 one_joint).1 = Ok sine
    ∧ not_constant (Tracking.raw_sine one_joint 5 1 5).1
    ∧ Tracking.np_min sine ≠ Ok (fst (1, 0))
    ∧ Tracking.np_max sine ≠ Ok (snd (1, 0)).
Proof.
  rewrite generate_sine_wave_run.
  destruct (fit_limits_extremes (1, 0) (Tracking.raw_sine one_joint 5 1 5).1)
    as (sine & lo & hi & Hfit & _).
  { intros Hnil. pose proof (raw_sine_length one_joint 5 1 5) as Hlen.
    by rewrite Hnil in Hlen. }
  exists sine. split; [done|]. split; [exact one_joint_raw_not_constant|].
  destruct (fit_limits_min_max _ _ _ Hfit one_joint_raw_not_constant)
    as [_ Hrev].
  destruct Hrev as [-> ->]; [cbn; lra|].
  cbn [fst snd]. split; intros [= Heq]; lra.
Qed.


(** * Further properties *)

(** Running a method on an environment whose attributes are read through the
    setters. *)
Ltac env_simpl :=
  cbn [bindM bind lift get modify ret set_data set_model fst snd
       shoulder_variant model data eq_ID_shoulder1_r2 rng frame_skip
       dependent_joints independent_joints effort_term render_observations
       with_data with_model with_rng with_effort_term
       with_ctrl with_eqs with_jnt_range with_qpos with_qvel with_act
       qpos qvel qacc act ctrl geom_xpos eqs jnt_range joint_names
       geom_names camera_names njnt na opt_timestep] in *.

Ltac env_run :=
  repeat first
    [ progress env_simpl
    | match goal with
      | |- context [match ?x with _ => _ end] => destruct x eqn:?
      end ].

(** Every computation whose outcome is known is replaced by it. *)
Ltac env_known :=
  repeat (env_simpl;
          repeat match goal with
                 | H : ?x = _ |- context [?x] => rewrite H
                 end);
  try reflexivity.

(** ** set_ctrl: the shape of the action, and what an exception leaves *)
Section SetCtrlEdges.
Context {E : Type}.
Implicit Types self : FixedEye.t E.

Lemma broadcast_to_Raise {A} (n : nat) (v : list A) :
  length v ≠ n -> length v ≠ 1%nat -> Np.broadcast_to n v = Raise ValueError.
Proof.
  intros Hn H1. unfold Np.broadcast_to. rewrite decide_False by done.
  destruct v as [|x [|y v]]; done.
Qed.

Lemma broadcast_to_length {A} (n : nat) (v v' : list A) :
  Np.broadcast_to n v = Ok v' -> length v' = n.
Proof.
  unfold Np.broadcast_to. case_decide as Hn; [by intros [= <-]|].
  destruct v as [|x [|y v]]; [done| |done].
  intros [= <-]. by rewrite length_replicate.
Qed.

Lemma zip_with_replicate_same {A B C} (f : A -> B -> C) (l : list A) (b : B) :
  zip_with f l (replicate (length l) b) = (fun x => f x b) <$> l.
Proof. induction l as [|x l IH]; cbn; [done|]. by rewrite IH. Qed.

(** X1 (set_ctrl, line 83).  An action that has neither one entry per
    actuator nor a single entry cannot be broadcast: the call raises
    [ValueError] and nothing is written, neither the control nor the
    model. *)
Theorem set_ctrl_rejects_wrong_length self action :
  length (ctrl (data self)) = length (act (data self)) ->
  length action ≠ length (act (data self)) ->
  length action ≠ 1%nat ->
  set_ctrl action self = (Raise ValueError, self).
Proof.
  intros Hctrl Hlen H1. unfold set_ctrl. cbn [bindM get lift].
  unfold Np.add, Np.binop.
  destruct (decide (length (act (data self)) = 1%nat)) as [Hone|Hone].
  - destruct (act (data self)) as [|x [|y l]] eqn:Hact; try done.
    unfold Np.broadcast_to at 1. rewrite decide_False by (cbn; congruence).
    cbn [bind]. rewrite broadcast_to_same by done. cbn [bind].
    unfold Np.assign, Np.clip.
    rewrite broadcast_to_Raise; [done| |].
    all: rewrite length_fmap, length_zip_with, length_replicate; cbn in *; lia.
  - rewrite broadcast_to_same by done. cbn [bind].
    by rewrite broadcast_to_Raise.
Qed.

(** X2 (set_ctrl, line 83).  An action of a single entry is broadcast: the
    same value is added to the activation of every actuator before
    clipping. *)
Theorem set_ctrl_broadcasts_single_entry self (a : R) :
  length (ctrl (data self)) = length (act (data self)) ->
  ctrl (data (snd (set_ctrl [a] self)))
  = (fun x => Np.clip1 0 1 (x + a)) <$> act (data self).
Proof.
  intros Hctrl.
  assert (Np.add (act (data self)) [a]
          = Ok ((fun x => x + a) <$> act (data self))) as Hadd.
  { unfold Np.add, Np.binop.
    destruct (decide (length (act (data self)) = 1%nat)) as [Hone|Hone].
    - destruct (act (data self)) as [|x [|y l]]; done.
    - rewrite broadcast_to_same by done. cbn [bind].
      unfold Np.broadcast_to. rewrite decide_False by (cbn; congruence).
      cbn [bind]. f_equal. apply zip_with_replicate_same. }
  rewrite (set_ctrl_data self [a] _ Hadd) by (by rewrite length_fmap).
  cbn [ctrl with_ctrl]. unfold Np.clip. by rewrite <- list_fmap_compose.
Qed.

Lemma set_eq_data_twice rows i col v rows' :
  set_eq_data rows i col v = Ok rows' ->
  set_eq_data rows' i col v = Ok rows'.
Proof.
  intros (r & Hr & Hcol & ->)%set_eq_data_Ok. unfold set_eq_data.
  rewrite list_lookup_insert_eq by (by eapply lookup_lt_Some).
  cbn [eq_data with_eq_data]. rewrite length_insert.
  case_decide; [|done]. f_equal.
  rewrite list_insert_insert_eq. unfold with_eq_data at 1.
  cbn [eq_type eq_obj1id eq_obj2id eq_active eq_data with_eq_data].
  by rewrite list_insert_insert_eq.
Qed.

Lemma setitem_twice {A} (a a' : list A) i x :
  Np.setitem a i x = Ok a' -> Np.setitem a' i x = Ok a'.
Proof.
  unfold Np.setitem.
  destruct (Np.index (length a) i) as [k|] eqn:Hk; cbn [bind]; [|done].
  intros [= <-]. rewrite length_insert, Hk. cbn [bind].
  by rewrite list_insert_insert_eq.
Qed.

(** [set_ctrl] is the write of the control, then the patch. *)
Lemma set_ctrl_split self action :
  length (ctrl (data self)) = length (act (data self)) ->
  length action = length (act (data self)) ->
  set_ctrl action self
  = shoulder_patch
      (with_control self
         (Np.clip (zip_with Rplus (act (data self)) action) 0 1)).
Proof.
  intros Hctrl Hlen. unfold set_ctrl. cbn [bindM get lift].
  unfold Np.add. rewrite binop_same_length by done.
  rewrite assign_same_length
    by (unfold Np.clip; rewrite length_fmap, length_zip_with; lia).
  reflexivity.
Qed.

(** The patch neither reads nor writes the control. *)
Lemma shoulder_patch_control self c :
  shoulder_patch (with_control self c)
  = ((shoulder_patch self).1, with_control (shoulder_patch self).2 c).
Proof.
  unfold shoulder_patch, with_control, qpos_of, get_eq_ID.
  env_run; reflexivity.
Qed.

(** Patching twice is patching once. *)
Lemma shoulder_patch_twice self :
  shoulder_patch (shoulder_patch self).2 = shoulder_patch self.
Proof.
  unfold shoulder_patch, qpos_of, get_eq_ID, joint_name2id.
  env_simpl.
  destruct (is_patch (shoulder_variant self)) eqn:Hpatch; env_known.
  destruct (name2id _ "shoulder_elv") as [ie|] eqn:Hie; env_known.
  destruct (Np.getitem _ ie) as [elv|] eqn:Helv; env_known.
  destruct (eq_ID_shoulder1_r2 self) as [k|] eqn:Hk; env_known.
  destruct (set_eq_data _ k _ _) as [rows|] eqn:Hrows; env_known.
  pose proof (set_eq_data_twice _ _ _ _ _ Hrows) as Hrows'.
  destruct (String.eqb (shoulder_variant self) "patch-v2") eqn:Hv2;
    env_known.
  destruct (name2id _ "elv_angle") as [ia|] eqn:Hia; env_known.
  destruct (Np.getitem _ ia) as [ang|] eqn:Hang; env_known.
  destruct (name2id _ "shoulder_rot") as [rot|] eqn:Hrot; env_known.
  destruct (Np.setitem _ rot _) as [rng|] eqn:Hrng; env_known.
  pose proof (setitem_twice _ _ _ _ Hrng) as Hrng'. env_known.
Qed.

Lemma shoulder_patch_data self :
  data (shoulder_patch self).2 = data self.
Proof.
  unfold shoulder_patch, qpos_of, get_eq_ID. env_run; reflexivity.
Qed.

(** X3 (set_ctrl, lines 82-91).  Calls do not accumulate: the control is
    computed from the activation, which [set_ctrl] leaves alone, and the
    patch from the joint positions.  So after any call with a well-shaped
    action, a second call gives the result and leaves the environment that
    it would have given and left without the first. *)
Theorem set_ctrl_last_call_wins self action1 action2 :
  length (ctrl (data self)) = length (act (data self)) ->
  length action1 = length (act (data self)) ->
  length action2 = length (act (data self)) ->
  set_ctrl action2 (snd (set_ctrl action1 self)) = set_ctrl action2 self.
Proof.
  intros Hctrl H1 H2.
  rewrite (set_ctrl_split self action1), (set_ctrl_split self action2)
    by done.
  rewrite !shoulder_patch_control. cbn [snd].
  rewrite set_ctrl_split.
  - change (with_control (with_control ?s _) ?c) with (with_control s c).
    change (act (data (with_control ?s _))) with (act (data s)).
    rewrite shoulder_patch_data.
    rewrite shoulder_patch_control, shoulder_patch_twice. reflexivity.
  - unfold with_control. env_simpl. rewrite shoulder_patch_data.
    unfold Np.clip. rewrite length_fmap, length_zip_with. lia.
  - unfold with_control. env_simpl. by rewrite shoulder_patch_data.
Qed.

(** X4 (set_ctrl, lines 83-87).  The control is written before the patch
    runs: with a patch variant and a model that has no joint named
    [shoulder_elv], the call raises [ValueError], the clipped control is in
    place all the same, and the model is as it was. *)
Theorem set_ctrl_missing_joint_after_write self action :
  is_patch (shoulder_variant self) = true ->
  length (ctrl (data self)) = length (act (data self)) ->
  length action = length (act (data self)) ->
  Some "shoulder_elv" ∉ joint_names (model self) ->
  set_ctrl action self
  = (Raise ValueError,
     with_data self
       (with_ctrl (data self)
          (zip_with (fun a x => Np.clip1 0 1 (a + x))
             (act (data self)) action))).
Proof.
  intros Hpatch Hctrl Hlen Hname. rewrite set_ctrl_split by done.
  unfold shoulder_patch, with_control, qpos_of, joint_name2id, name2id.
  env_simpl. rewrite Hpatch.
  destruct (list_find _ _) as [[i n]|] eqn:Hfind.
  - apply list_find_Some in Hfind as (Hi & -> & _).
    destruct Hname. by eapply list_elem_of_lookup_2.
  - env_simpl. unfold Np.clip. by rewrite fmap_zip_with.
Qed.

End SetCtrlEdges.

(** ** Construction: the action period, the camera, and what fails *)
Section InitEdges.
Context {E : Type} `{!EffortTerm E} `{!MjSim}.
Implicit Types self : FixedEye.t E.

Lemma int_nonneg (x : R) :
  0 <= x -> (0 ≤ int x)%Z ∧ IZR (int x) <= x < IZR (int x) + 1.
Proof.
  intros Hx. unfold int. destruct (Rle_dec 0 x) as [_|]; [|done].
  destruct (base_Int_part x) as [Hlo Hhi]. split; [|lra].
  apply le_IZR. apply Rnot_lt_le. intros Hneg.
  assert (Int_part x + 1 ≤ 0)%Z as Hz by (apply lt_IZR in Hneg; lia).
  apply IZR_le in Hz. rewrite plus_IZR in Hz. lra.
Qed.

Lemma int_below_one (x : R) : 0 <= x < 1 -> int x = 0%Z.
Proof.
  intros [Hlo Hhi]. destruct (int_nonneg x Hlo) as (Hz & Hle & _).
  assert (int x < 1)%Z; [|lia]. apply lt_IZR. lra.
Qed.

Lemma period_steps (f : R) : f ≠ 0 -> 1 / (0.002 * f) = 500 * / f.
Proof.
  intros Hf. replace 0.002 with (2 / 1000) by lra.
  unfold Rdiv. rewrite Rmult_1_l, !Rinv_mult, Rinv_inv. lra.
Qed.

(** What a successful construction has computed on its way. *)
Lemma init_steps variant kw g m d self :
  init variant kw g m d = Ok self ->
  action_sample_freq self = kwargs_get (kw_action_sample_freq kw) 10
  ∧ timestep self = 0.002
  ∧ frame_skip_of 0.002 (action_sample_freq self) = Ok (frame_skip self)
  ∧ frames_per_second_of m (frame_skip self)
    = Ok (video_frames_per_second self)
  ∧ action_space self = (replicate (na m) (-1), replicate (na m) 1)
  ∧ ∃ cam pos quat,
      camera_name2id m "for_testing" = Ok cam
      ∧ Np.setitem (cam_pos m) cam (1.5, -1.5, 0.9) = Ok pos
      ∧ Np.setitem (cam_quat m) cam (0.6582, 0.6577, 0.2590, 0.2588)
        = Ok quat
      ∧ model self = with_cam_quat (with_cam_pos m pos) quat.
Proof.
  unfold init.
  destruct (frame_skip_of _ _) as [skip|] eqn:Hskip; cbn [bind]; [|done].
  destruct (resolve_shoulder _ _) as [eq_id|]; cbn [bind]; [|done].
  destruct (frames_per_second_of _ _) as [fps|] eqn:Hfps; cbn [bind];
    [|done].
  destruct (camera_name2id m _) as [cam|] eqn:Hcam; cbn [bind]; [|done].
  destruct (Np.setitem (cam_pos m) _ _) as [pos|] eqn:Hpos; cbn [bind];
    [|done].
  change (camera_name2id (with_cam_pos m pos) "for_testing")
    with (camera_name2id m "for_testing").
  rewrite Hcam. cbn [bind cam_quat with_cam_pos].
  destruct (Np.setitem (cam_quat m) _ _) as [quat|] eqn:Hquat; cbn [bind];
    [|done].
  intros [= <-]. cbn. split_and!; try done. by exists cam, pos, quat.
Qed.

(** X5 (__init__, lines 27-29 and 73).  When construction succeeds with a
    positive sampling frequency, [frame_skip] is at least one, it is the
    largest number of 2 ms steps that fit in one action period
    [1 / action_sample_freq], and the frequency is at most 500. *)
Theorem init_frame_skip_fits_period variant kw g m d self :
  init variant kw g m d = Ok self ->
  0 < action_sample_freq self ->
  action_sample_freq self = kwargs_get (kw_action_sample_freq kw) 10
  ∧ timestep self = 0.002
  ∧ (1 ≤ frame_skip self)%Z
  ∧ action_sample_freq self <= 500
  ∧ IZR (frame_skip self) * timestep self <= 1 / action_sample_freq self
  ∧ 1 / action_sample_freq self < (IZR (frame_skip self) + 1) * timestep self.
Proof.
  intros (Hfreq & Hstep & Hskip & Hfps & _)%init_steps Hpos.
  rewrite Hstep. set (f := action_sample_freq self) in *.
  unfold frame_skip_of in Hskip. case_decide as Hzero; [done|].
  injection Hskip as Hskip.
  unfold frames_per_second_of in Hfps. case_decide as Hzero'; [done|].
  assert (0 < / f) as Hinv by (by apply Rinv_0_lt_compat).
  rewrite period_steps in Hskip by lra.
  destruct (int_nonneg (500 * / f)) as (Hz & Hle & Hlt); [lra|].
  rewrite Hskip in Hz, Hle, Hlt.
  assert (frame_skip self ≠ 0)%Z as Hnz.
  { intros Heq. rewrite Heq in Hzero'. lra. }
  assert (1 ≤ frame_skip self)%Z as Hone by lia.
  apply IZR_le in Hone.
  assert (f * / f = 1) as Hff by (apply Rinv_r; lra).
  split_and!; [done|done|lia| |unfold Rdiv; lra|unfold Rdiv; lra].
  apply Rnot_lt_le. intros Hbig.
  assert (500 * / f < 1); [|lra].
  assert (500 * / f < f * / f); [|lra].
  apply Rmult_lt_compat_r; lra.
Qed.

(** X6 (__init__, lines 27-29 and 73).  A sampling frequency of zero
    divides by zero at once.  One above 500 makes [frame_skip] zero, and
    the frame rate of the metadata then divides by zero: no environment is
    constructed, and with a variant that is no patch the exception is
    [ZeroDivisionError]. *)
Theorem init_sample_freq_out_of_range variant kw g m d :
  let freq := kwargs_get (kw_action_sample_freq kw) 10 in
  (freq = 0 -> init variant kw g m d = Raise ZeroDivisionError)
  ∧ (500 < freq ->
     (∀ self, init variant kw g m d ≠ Ok self)
     ∧ (is_patch variant = false ->
        init variant kw g m d = Raise ZeroDivisionError)).
Proof.
  intros freq. split.
  - intros Hzero. unfold init, frame_skip_of. fold freq. rewrite Hzero.
    rewrite decide_True by lra. reflexivity.
  - intros Hbig.
    assert (frame_skip_of 0.002 freq = Ok 0%Z) as Hskip.
    { unfold frame_skip_of. rewrite decide_False by lra. f_equal.
      apply int_below_one.
      assert (0 < / freq) as Hinv by (apply Rinv_0_lt_compat; lra).
      assert (freq * / freq = 1) as Hff by (apply Rinv_r; lra).
      rewrite period_steps by lra.
      split; [lra|].
      assert (500 * / freq < freq * / freq); [|lra].
      apply Rmult_lt_compat_r; lra. }
    assert (frames_per_second_of m 0 = Raise ZeroDivisionError) as Hfps.
    { unfold frames_per_second_of. rewrite decide_True by lra. done. }
    split.
    + intros self (Hfreq & _ & Hskip' & Hfps' & _)%init_steps.
      rewrite Hfreq in Hskip'. fold freq in Hskip'.
      rewrite Hskip in Hskip'. injection Hskip' as Hzero.
      rewrite <- Hzero in Hfps'. by rewrite Hfps in Hfps'.
    + intros Hpatch. unfold init. fold freq. rewrite Hskip. cbn [bind].
      unfold resolve_shoulder. rewrite Hpatch. cbn [bind].
      by rewrite Hfps.
Qed.

Lemma camera_name2id_Ok m name z :
  camera_name2id m name = Ok z ->
  ∃ c, z = Z.of_nat c ∧ camera_names m !! c = Some (Some name).
Proof.
  unfold camera_name2id.
  destruct (name2id _ _) as [i|] eqn:Hi; [|done].
  intros [= <-]. by apply name2id_Ok.
Qed.

Lemma setitem_Ok_nat {A} (a a' : list A) (k : nat) (x : A) :
  Np.setitem a (Z.of_nat k) x = Ok a' ->
  (k < length a)%nat ∧ a' = <[k:=x]> a.
Proof.
  unfold Np.setitem, Np.index. repeat case_decide; try lia; [|done].
  cbn [bind]. intros [= <-]. rewrite Nat2Z.id. split; [lia|done].
Qed.

(** X7 (__init__, lines 76-77).  A successful construction has changed the
    model in one place: the position and the orientation of the camera
    [for_testing].  The data of the simulation and the generator are the
    ones it was given, and the action space is [[-1, 1]] for each muscle. *)
Theorem init_moves_testing_camera_only variant kw g m d self :
  init variant kw g m d = Ok self ->
  ∃ c : nat,
    camera_names m !! c = Some (Some "for_testing")
    ∧ (c < length (cam_pos m))%nat
    ∧ (c < length (cam_quat m))%nat
    ∧ model self
      = with_cam_quat
          (with_cam_pos m (<[c := (1.5, -1.5, 0.9)]> (cam_pos m)))
          (<[c := (0.6582, 0.6577, 0.2590, 0.2588)]> (cam_quat m))
    ∧ data self = d
    ∧ rng self = g
    ∧ action_space self = (replicate (na m) (-1), replicate (na m) 1).
Proof.
  intros Hinit.
  destruct (init_Ok _ _ _ _ _ _ Hinit) as (_ & _ & _ & _ & _ & _ & _ & Hd & Hg).
  destruct (init_steps _ _ _ _ _ _ Hinit)
    as (_ & _ & _ & _ & Hspace & cam & pos & quat & Hcam & Hpos & Hquat & Hm).
  apply camera_name2id_Ok in Hcam as (c & -> & Hc).
  apply setitem_Ok_nat in Hpos as [Hlt ->].
  apply setitem_Ok_nat in Hquat as [Hlt' ->].
  exists c. by split_and!.
Qed.

(** X8 (__init__, lines 76-77).  A model without a camera named
    [for_testing] cannot be used: construction never succeeds, and when it
    gets as far as the camera it raises [KeyError]. *)
Theorem init_needs_testing_camera variant kw g m d :
  Some "for_testing" ∉ camera_names m ->
  (∀ self, init variant kw g m d ≠ Ok self)
  ∧ (∀ skip eq_id fps,
       frame_skip_of 0.002 (kwargs_get (kw_action_sample_freq kw) 10)
       = Ok skip ->
       resolve_shoulder variant m = Ok eq_id ->
       frames_per_second_of m skip = Ok fps ->
       init variant kw g m d = Raise KeyError).
Proof.
  intros Hcam.
  assert (camera_name2id m "for_testing" = Raise KeyError) as Hraise.
  { unfold camera_name2id, name2id.
    destruct (list_find _ _) as [[i n]|] eqn:Hfind; [|done].
    apply list_find_Some in Hfind as (Hi & -> & _).
    destruct Hcam. by eapply list_elem_of_lookup_2. }
  split.
  - intros self (_ & _ & _ & _ & _ & cam & _ & _ & Hok & _)%init_steps.
    by rewrite Hraise in Hok.
  - intros skip eq_id fps Hskip Hres Hfps. unfold init.
    rewrite Hskip. cbn [bind]. rewrite Hres. cbn [bind].
    rewrite Hfps. cbn [bind]. by rewrite Hraise.
Qed.

End InitEdges.

(** ** What stays as construction left it *)
Section Runs.
Context {E : Type} `{!EffortTerm E} `{!MjSim}.
Implicit Types self s : FixedEye.t E.

Lemma same_setup_refl self : same_setup self self.
Proof. unfold same_setup. by split_and!. Qed.

Lemma same_setup_trans self s s' :
  same_setup self s -> same_setup s s' -> same_setup self s'.
Proof.
  unfold same_setup. intros H1 H2.
  repeat match goal with H : _ ∧ _ |- _ => destruct H end.
  split_and!; congruence.
Qed.

Lemma set_eq_data_length rows i col v rows' :
  set_eq_data rows i col v = Ok rows' -> length rows' = length rows.
Proof.
  intros (r & _ & _ & ->)%set_eq_data_Ok. by rewrite length_insert.
Qed.

Lemma setitem_length {A} (a a' : list A) i x :
  Np.setitem a i x = Ok a' -> length a' = length a.
Proof.
  unfold Np.setitem. destruct (Np.index _ _); cbn [bind]; [|done].
  intros [= <-]. by rewrite length_insert.
Qed.

Lemma set_ctrl_same_setup self action :
  same_setup self (set_ctrl action self).2.
Proof.
  unfold set_ctrl. run.
  all: repeat match goal with
       | H : set_eq_data _ _ _ _ = Ok _ |- _ => apply set_eq_data_length in H
       | H : Np.setitem _ _ _ = Ok _ |- _ => apply setitem_length in H
       end.
  all: unfold same_setup; cbn in *; split_and!; congruence.
Qed.

Lemma reset_same_setup self : same_setup self (reset self).2.
Proof. unfold reset. run; unfold same_setup; cbn; by split_and!. Qed.

Lemma generate_sine_wave_same_setup self limits n lo hi :
  same_setup self (Tracking.generate_sine_wave limits n lo hi self).2.
Proof.
  unfold Tracking.generate_sine_wave. run; unfold same_setup; cbn;
    by split_and!.
Qed.

Lemma reaches_same_setup self s : reaches self s -> same_setup self s.
Proof.
  induction 1 as [|s action _ IH|s _ IH|s limits n lo hi _ IH].
  - apply same_setup_refl.
  - eapply same_setup_trans; [done|]. apply set_ctrl_same_setup.
  - eapply same_setup_trans; [done|]. apply reset_same_setup.
  - eapply same_setup_trans; [done|]. apply generate_sine_wave_same_setup.
Qed.

(** X9 (FixedEye.py, lines 82-91 and 131-157; evaluate-tracking.py, lines
    51-67).  Whatever calls of [set_ctrl], [reset] and
    [generate_sine_wave] are made, and whether they return or raise, the
    attributes that construction set stay: the variant, the sampling, the
    joint lists, the cached constraint, the action space, the rendering
    options; and so do the names, the sizes and the cameras of the model,
    and the length of a step. *)
Theorem methods_keep_setup self s :
  reaches self s ->
  shoulder_variant s = shoulder_variant self
  ∧ action_sample_freq s = action_sample_freq self
  ∧ timestep s = timestep self
  ∧ frame_skip s = frame_skip self
  ∧ dependent_joints s = dependent_joints self
  ∧ independent_joints s = independent_joints self
  ∧ eq_ID_shoulder1_r2 s = eq_ID_shoulder1_r2 self
  ∧ action_space s = action_space self
  ∧ render_observations s = render_observations self
  ∧ ocular_image_height s = ocular_image_height self
  ∧ ocular_image_width s = ocular_image_width self
  ∧ video_frames_per_second s = video_frames_per_second self
  ∧ njnt (model s) = njnt (model self)
  ∧ na (model s) = na (model self)
  ∧ joint_names (model s) = joint_names (model self)
  ∧ geom_names (model s) = geom_names (model self)
  ∧ camera_names (model s) = camera_names (model self)
  ∧ cam_pos (model s) = cam_pos (model self)
  ∧ cam_quat (model s) = cam_quat (model self)
  ∧ length (eqs (model s)) = length (eqs (model self))
  ∧ length (jnt_range (model s)) = length (jnt_range (model self))
  ∧ dt s = dt self.
Proof.
  intros Hsame%reaches_same_setup. unfold same_setup in Hsame.
  repeat match goal with H : _ ∧ _ |- _ => destruct H end.
  unfold dt. split_and!; congruence.
Qed.

Lemma broadcast_to_error {A} (n : nat) (v : list A) e :
  Np.broadcast_to n v = Raise e -> e = ValueError.
Proof.
  unfold Np.broadcast_to. case_decide; [done|].
  destruct v as [|x [|y v]]; congruence.
Qed.

Lemma binop_error {A B C} (f : A -> B -> C) x y e :
  Np.binop f x y = Raise e -> e = ValueError.
Proof.
  unfold Np.binop.
  destruct (Np.broadcast_to _ x) eqn:Hx; cbn [bind].
  - destruct (Np.broadcast_to _ y) eqn:Hy; cbn [bind]; [done|].
    intros [= <-]. by eapply broadcast_to_error.
  - intros [= <-]. by eapply broadcast_to_error.
Qed.

Lemma index_error n i e : Np.index n i = Raise e -> e = IndexError.
Proof. unfold Np.index. repeat case_decide; congruence. Qed.

Lemma getitem_error {A} (a : list A) i e :
  Np.getitem a i = Raise e -> e = IndexError.
Proof.
  unfold Np.getitem. destruct (Np.index _ _) eqn:Hi; cbn [bind].
  - destruct (a !! _); congruence.
  - intros [= <-]. by eapply index_error.
Qed.

Lemma setitem_error {A} (a : list A) i x e :
  Np.setitem a i x = Raise e -> e = IndexError.
Proof.
  unfold Np.setitem. destruct (Np.index _ _) eqn:Hi; cbn [bind]; [done|].
  intros [= <-]. by eapply index_error.
Qed.

Lemma name2id_error names name e :
  name2id names name = Raise e -> e = ValueError.
Proof. unfold name2id. destruct (list_find _ _) as [[]|]; congruence. Qed.

Lemma qpos_of_error self name e :
  qpos_of self name = Raise e -> e = ValueError ∨ e = IndexError.
Proof.
  unfold qpos_of, joint_name2id.
  destruct (name2id _ _) eqn:Hn; cbn [bind].
  - intros ?%getitem_error. by right.
  - intros [= <-]. left. by eapply name2id_error.
Qed.

Lemma set_eq_data_error rows i col v e :
  set_eq_data rows i col v = Raise e -> e = IndexError.
Proof.
  unfold set_eq_data. destruct (rows !! i); [case_decide|]; congruence.
Qed.

(** The exceptions of [set_ctrl]. *)
Lemma set_ctrl_error self action e :
  (set_ctrl action self).1 = Raise e ->
  e = ValueError ∨ e = IndexError
  ∨ (e = AttributeError ∧ is_patch (shoulder_variant self) = true
     ∧ eq_ID_shoulder1_r2 self = None).
Proof.
  unfold set_ctrl, get_eq_ID, Np.add, Np.assign. env_run; intros [= <-].
  all: repeat match goal with
       | H : Np.binop _ _ _ = Raise _ |- _ => apply binop_error in H
       | H : Np.broadcast_to _ _ = Raise _ |- _ => apply broadcast_to_error in H
       | H : qpos_of _ _ = Raise _ |- _ => apply qpos_of_error in H
       | H : set_eq_data _ _ _ _ = Raise _ |- _ => apply set_eq_data_error in H
       | H : joint_name2id _ _ = Raise _ |- _ => apply name2id_error in H
       | H : Np.setitem _ _ _ = Raise _ |- _ => apply setitem_error in H
       end.
  all: try (left; congruence); try (right; left; congruence); try tauto.
  all: destruct (eq_ID_shoulder1_r2 self); [done|].
  all: right; right; split_and!; congruence.
Qed.

Lemma resolve_shoulder_patch variant m o :
  is_patch variant = true ->
  resolve_shoulder variant m = Ok o ->
  ∃ k r, o = Some k ∧ eqs m !! k = Some r.
Proof.
  intros Hpatch. unfold resolve_shoulder. rewrite Hpatch.
  destruct (shoulder_rows m 0 (eqs m)) as [ids|] eqn:Hrows; cbn [bind];
    [|done].
  unfold assert. case_bool_decide as Hlen; cbn [bind]; [|done].
  destruct ids as [|k [|? ?]]; try done. intros [= <-].
  apply shoulder_rows_Ok in Hrows.
  destruct (indices_from_elem (fun r => tested r && couples m r) 0
              (eqs m) k) as (r & Hr & _).
  { rewrite <- Hrows. by left. }
  rewrite Nat.sub_0_r in Hr. by exists k, r.
Qed.

(** X10 (set_ctrl, lines 82-91; __init__, lines 43-51).  [set_ctrl] raises
    nothing but [ValueError], [IndexError] and, when a patch variant has no
    cached constraint, [AttributeError].  An environment that construction
    returned has the constraint cached if its variant is a patch, and its
    index stays that of an existing row: after whatever calls, [set_ctrl]
    does not raise [AttributeError]. *)
Theorem set_ctrl_exceptions variant kw g m d self s action e :
  init variant kw g m d = Ok self ->
  reaches self s ->
  (set_ctrl action s).1 = Raise e ->
  (e = ValueError ∨ e = IndexError)
  ∧ (is_patch variant = true ->
     ∃ k, eq_ID_shoulder1_r2 s = Some k
          ∧ (k < length (eqs (model s)))%nat).
Proof.
  intros Hinit Hreach Hraise.
  destruct (init_Ok _ _ _ _ _ _ Hinit)
    as (Hvar & _ & _ & Hres & _ & Heqs & _).
  destruct (reaches_same_setup _ _ Hreach)
    as (Hvar' & _ & _ & _ & _ & _ & Hid & _ & _ & _ & _ & _ & _ & _ & _ & _
        & _ & _ & _ & _ & Hlen & _).
  rewrite Hvar in Hvar'.
  assert (is_patch variant = true ->
          ∃ k, eq_ID_shoulder1_r2 s = Some k
               ∧ (k < length (eqs (model s)))%nat) as Hcached.
  { intros Hpatch.
    destruct (resolve_shoulder_patch _ _ _ Hpatch Hres) as (k & r & Hk & Hr).
    exists k. rewrite Hid, Hlen, Heqs. split; [done|].
    by eapply lookup_lt_Some. }
  split; [|done].
  destruct (set_ctrl_error _ _ _ Hraise) as [?|[?|(_ & Hpatch & Hnone)]];
    [by left|by right|].
  rewrite Hvar' in Hpatch. destruct (Hcached Hpatch) as (k & Hk & _).
  congruence.
Qed.

End Runs.

(** ** The visual observation *)
Section Visual.
Context {E : Type} `{!EffortTerm E} `{!MjSim}.
Implicit Types self : FixedEye.t E.

Lemma get_observation_visual self obs :
  get_observation self = Ok obs ->
  render_observations self = true ->
  ∃ rgb depth v,
    sim_render (model self) (data self) (ocular_image_width self)
      (ocular_image_height self) "oculomotor" = Ok (rgb, depth)
    ∧ concatenate_depth
        (reverse ((fun row : list (R * R * R) => rgb_pixel <$> row) <$> rgb))
        (reverse ((fun row : list R => normalise <$> row) <$> depth))
      = Ok v
    ∧ visual obs = Some v.
Proof.
  unfold get_observation. intros Hobs Hrender. rewrite Hrender in Hobs.
  repeat match type of Hobs with
         | bind ?m _ = _ =>
             let H := fresh "Hstep" in
             destruct m eqn:H; cbn [bind] in Hobs; [|done]
         | (let '(_, _) := ?p in _) = _ => destruct p
         end.
  injection Hobs as <-. do 3 eexists. split_and!; [reflexivity|eassumption|done].
Qed.

Lemma concatenate_depth_Ok rgb depth v :
  concatenate_depth rgb depth = Ok v ->
  length v = length rgb
  ∧ length depth = length rgb
  ∧ ∀ i j prow drow p z,
      rgb !! i = Some prow -> depth !! i = Some drow ->
      prow !! j = Some p -> drow !! j = Some z ->
      ∃ vrow, v !! i = Some vrow ∧ vrow !! j = Some (p ++ [z]).
Proof.
  unfold concatenate_depth. case_decide as Hshape; [|done].
  intros [= <-]. pose proof (Forall2_length _ _ _ Hshape) as Hlen.
  split_and!; [rewrite length_zip_with; lia|done|].
  intros i j prow drow p z Hp Hd Hpj Hdj.
  exists (zip_with (fun p z => p ++ [z]) prow drow). split.
  - apply lookup_zip_with_Some. by exists prow, drow.
  - apply lookup_zip_with_Some. by exists p, z.
Qed.

(** X11 (get_observation, lines 118-125).  With rendering on, the image of
    the observation has the rows of the rendered frame in reverse order,
    and each pixel has four channels: red, green and blue, each divided by
    255 and normalised, and then the normalised depth of the same pixel. *)
Theorem visual_is_flipped_frame_with_depth self obs :
  get_observation self = Ok obs ->
  render_observations self = true ->
  ∃ rgb depth image,
    sim_render (model self) (data self) (ocular_image_width self)
      (ocular_image_height self) "oculomotor" = Ok (rgb, depth)
    ∧ visual obs = Some image
    ∧ length image = length rgb
    ∧ length depth = length rgb
    ∧ ∀ i j frame_row depth_row r g b z,
        (i < length rgb)%nat ->
        rgb !! (length rgb - S i)%nat = Some frame_row ->
        depth !! (length rgb - S i)%nat = Some depth_row ->
        frame_row !! j = Some (r, g, b) ->
        depth_row !! j = Some z ->
        ∃ row, image !! i = Some row
               ∧ row !! j
                 = Some [normalise (r / 255.0); normalise (g / 255.0);
                         normalise (b / 255.0); normalise z].
Proof.
  intros Hobs Hrender.
  destruct (get_observation_visual _ _ Hobs Hrender)
    as (rgb & depth & v & Hframe & Hv & Hvis).
  destruct (concatenate_depth_Ok _ _ _ Hv) as (Hlen & Hlen' & Hpix).
  rewrite length_reverse, length_fmap in Hlen.
  rewrite !length_reverse, !length_fmap in Hlen'.
  exists rgb, depth, v.
  split_and!; [exact Hframe|exact Hvis|exact Hlen|exact Hlen'|].
  intros i j frame_row depth_row r g b z Hi Hrow Hdrow Hp Hz.
  apply (Hpix i j (rgb_pixel <$> frame_row) (normalise <$> depth_row)
           (rgb_pixel (r, g, b)) (normalise z)).
  - rewrite reverse_lookup by (by rewrite length_fmap).
    rewrite length_fmap, list_lookup_fmap.
    apply fmap_Some. by exists frame_row.
  - etrans; [apply reverse_lookup; rewrite length_fmap, Hlen'; exact Hi|].
    rewrite length_fmap, Hlen', list_lookup_fmap.
    apply fmap_Some. by exists depth_row.
  - rewrite list_lookup_fmap. apply fmap_Some. by exists (r, g, b).
  - rewrite list_lookup_fmap. apply fmap_Some. by exists z.
Qed.

End Visual.

(** ** The trajectory of the target *)
Section Trajectory.
Import Tracking.
Context {E : Type}.
Implicit Types env : FixedEye.t E.

Lemma components_rng n g lo hi (t sine : list R) :
  (components n g lo hi t sine).2
  = Rng.Make (Rng.draws g) (Rng.cursor g + 3 * n).
Proof.
  revert g sine. induction n as [|n IH]; intros g sine; cbn [components].
  - destruct g as [draws cursor]. cbn. f_equal. lia.
  - unfold component, Rng.uniform1. cbn [Rng.draws Rng.cursor].
    rewrite IH. cbn [Rng.draws Rng.cursor]. f_equal. lia.
Qed.

Lemma generate_sine_wave_state env limits n lo hi :
  (generate_sine_wave limits n lo hi env).2
  = with_rng env
      (Rng.Make (Rng.draws (rng env)) (Rng.cursor (rng env) + 3 * n)).
Proof.
  unfold generate_sine_wave. cbn [bindM get].
  pose proof (components_rng n (rng env) lo hi (times (1000 + 1) (dt env))
                (replicate (length (times (1000 + 1) (dt env))) 0)) as Hg.
  unfold raw_sine.
  destruct (components _ _ _ _ _ _) as [sine g]. cbn [snd] in Hg. subst g.
  cbn [bindM modify lift]. by destruct (fit_limits limits sine).
Qed.

Lemma raw_sine_not_nil env n lo hi : (raw_sine env n lo hi).1 ≠ [].
Proof.
  intros Hnil. pose proof (raw_sine_length env n lo hi) as Hlen.
  rewrite Hnil in Hlen. discriminate.
Qed.

Lemma generate_sine_wave_returns env limits n lo hi :
  ∃ sine, (generate_sine_wave limits n lo hi env).1 = Ok sine
          ∧ length sine = 1001%nat.
Proof.
  rewrite generate_sine_wave_run.
  destruct (fit_limits_extremes limits (raw_sine env n lo hi).1
              (raw_sine_not_nil env n lo hi)) as (out & _ & _ & Hout & Hlen & _).
  exists out. split; [done|]. by rewrite Hlen, raw_sine_length.
Qed.

Lemma run_pair {S A} (m : M S A) (s : S) : m s = ((m s).1, (m s).2).
Proof. by destruct (m s). Qed.

(** X12 (evaluate-tracking.py, lines 45-67).  [generate_sine_wave] takes
    three draws per component from the generator of the environment and
    changes nothing else of it.  [generate_trajectory] always returns two
    waves of 1001 samples each; it takes 30 draws, the first 15 for the
    wave in y and the next 15 for the wave in z. *)
Theorem generate_trajectory_two_waves env (limits_y limits_z : R * R) :
  let after k := with_rng env
                   (Rng.Make (Rng.draws (rng env))
                      (Rng.cursor (rng env) + k)) in
  (∀ limits n lo hi,
     (generate_sine_wave limits n lo hi env).2 = after (3 * n)%nat)
  ∧ ∃ sin_y sin_z,
      generate_trajectory limits_y limits_z env
      = (Ok (sin_y, sin_z), after 30%nat)
      ∧ length sin_y = 1001%nat
      ∧ length sin_z = 1001%nat
      ∧ (generate_sine_wave limits_y 5 1 5 env).1 = Ok sin_y
      ∧ (generate_sine_wave limits_z 5 1 5 (after 15%nat)).1 = Ok sin_z.
Proof.
  intros after. split; [intros; apply generate_sine_wave_state|].
  destruct (generate_sine_wave_returns env limits_y 5 1 5) as (y & Hy & Hleny).
  destruct (generate_sine_wave_returns (after 15%nat) limits_z 5 1 5)
    as (z & Hz & Hlenz).
  exists y, z. split_and!; [|done..].
  unfold generate_trajectory, bindM.
  rewrite (run_pair (generate_sine_wave limits_y 5 1 5) env), Hy.
  rewrite generate_sine_wave_state.
  change (with_rng env _) with (after 15%nat).
  rewrite (run_pair (generate_sine_wave limits_z 5 1 5) (after 15%nat)), Hz.
  rewrite generate_sine_wave_state. unfold ret, after.
  cbn [rng with_rng Rng.draws Rng.cursor]. do 3 f_equal. lia.
Qed.

(** X13 (generate_sine_wave, lines 62-65).  When the summed components are
    not constant, every sample of the returned wave lies between the two
    limits, whichever of them is the smaller. *)
Theorem generate_sine_wave_within_limits env (limits : R * R) n lo hi sine :
  (generate_sine_wave limits n lo hi env).1 = Ok sine ->
  not_constant (raw_sine env n lo hi).1 ->
  Forall (fun x => Rmin (fst limits) (snd limits) <= x
                   <= Rmax (fst limits) (snd limits)) sine.
Proof.
  rewrite generate_sine_wave_run. intros Hfit Hraw.
  destruct (fit_limits_extremes limits (raw_sine env n lo hi).1
              (raw_sine_not_nil env n lo hi))
    as (out & m & M & Hout & _ & Hmin & Hmax & Hshape).
  rewrite Hout in Hfit. injection Hfit as <-.
  destruct (Hshape Hraw) as [Hlt ->].
  apply Forall_fmap, Forall_forall. intros x Hx. cbn.
  destruct Hmin as [_ Hmin], Hmax as [_ Hmax].
  specialize (Hmin x Hx). specialize (Hmax x Hx).
  assert (0 <= (x - m) / (M - m) <= 1) as [H0 H1].
  { assert (0 < / (M - m)) as Hinv by (apply Rinv_0_lt_compat; lra).
    assert ((M - m) * / (M - m) = 1) as Hone by (apply Rinv_r; lra).
    unfold Rdiv. split; [nra|].
    assert ((x - m) * / (M - m) <= (M - m) * / (M - m)); [|lra].
    apply Rmult_le_compat_r; lra. }
  set (u := (x - m) / (M - m)) in *.
  unfold Rmin, Rmax. destruct (Rle_dec _ _); split; nra.
Qed.

End Trajectory.

(** ** grab_proprioception *)
Section Grab.
Context {E : Type} `{!EffortTerm E} `{!MjSim}.
Implicit Types self : FixedEye.t E.

(** X14 (grab_proprioception, lines 174-186; get_observation, lines
    97-116).  Whenever [get_observation] returns, [grab_proprioception]
    returns too, and what it returns is the proprioception of the
    observation without the first two entries of its qpos, qvel and qacc
    blocks and without the activations: [3 * (n - 2) + 3] entries for [n]
    independent joints, and only the fingertip when there are fewer than
    two.  With rendering off the two methods return or raise together. *)
Theorem grab_proprioception_of_observation self :
  (∀ obs,
     get_observation self = Ok obs ->
     ∃ qpos qvel qacc finger_position act,
       let n := length (independent_joints self) in
       proprioception obs = qpos ++ qvel ++ qacc ++ finger_position ++ act
       ∧ length qpos = n ∧ length qvel = n ∧ length qacc = n
       ∧ length finger_position = 3%nat
       ∧ grab_proprioception self
         = Ok (drop 2 qpos ++ drop 2 qvel ++ drop 2 qacc ++ finger_position)
       ∧ length (drop 2 qpos ++ drop 2 qvel ++ drop 2 qacc
                 ++ finger_position)
         = (3 * (n - 2) + 3)%nat)
  ∧ (render_observations self = false ->
     ∀ p, grab_proprioception self = Ok p ->
          ∃ obs, get_observation self = Ok obs).
Proof.
  split.
  - intros obs Hobs.
    destruct (get_observation_Ok self obs Hobs)
      as (jr & qp & qv & qa & xyz & Hjr & Hqp & Hqv & Hqa & Hxyz & Lxyz & Hp
          & _).
    destruct (take_Ok _ _ _ Hjr) as [Ljr _].
    destruct (take_Ok _ _ _ Hqp) as [Lqp _].
    destruct (take_Ok _ _ _ Hqv) as [Lqv _].
    destruct (take_Ok _ _ _ Hqa) as [Lqa _].
    assert (length (qpos_block qp jr) = length (independent_joints self))
      as Lblock by (rewrite qpos_block_length; lia).
    exists (qpos_block qp jr), qv, qa, xyz, (normalise <$> act (data self)).
    cbn zeta. split_and!; try done.
    + unfold grab_proprioception. rewrite Hjr, Hqp. cbn [bind].
      unfold Np.sub, Np.div.
      rewrite binop_same_length by (by rewrite !length_fmap). cbn [bind].
      rewrite binop_same_length
        by (rewrite length_zip_with, !length_fmap; lia). cbn [bind].
      rewrite binop_same_length
        by (rewrite !length_zip_with, !length_fmap; lia). cbn [bind].
      rewrite qpos_block_eq, Hqv, Hqa. cbn [bind]. by rewrite Hxyz.
    + rewrite !length_app, !length_drop. lia.
  - intros Hrender p. unfold grab_proprioception, get_observation.
    rewrite Hrender.
    repeat match goal with
           | |- bind ?m _ = _ -> _ => destruct m; cbn [bind]; [|done]
           end.
    intros _. by eexists.
Qed.

End Grab.

(** ** Callbacks *)
Section Callbacks.
Context {C : Type} `{!Callback C}.

Lemma foldl_callbacks_lookup (callbacks : list C) (dict : gmap string C)
    (name : string) :
  foldl (fun dict callback => <[callback_name callback := callback]> dict)
    dict callbacks !! name
  = match last (filter (fun c => callback_name c = name) callbacks) with
    | Some c => Some c
    | None => dict !! name
    end.
Proof.
  revert dict. induction callbacks as [|c callbacks IH]; intros dict; [done|].
  cbn [foldl]. rewrite IH. rewrite filter_cons.
  destruct (decide (callback_name c = name)) as [<-|Hne].
  - rewrite last_cons. destruct (last (filter _ callbacks)); [done|].
    by rewrite lookup_insert_eq.
  - destruct (last (filter _ callbacks)); [done|].
    by rewrite lookup_insert_ne.
Qed.

(** X15 (__init__, line 80; callback, lines 159-160).  The callbacks are
    kept by name, a later one replacing an earlier one of the same name.
    [callback] updates the last callback given under that name and leaves
    every other entry alone; for a name that no callback has, so always
    when none were given, it raises [KeyError] and changes nothing. *)
Theorem callback_updates_last_of_name (callbacks : list C) (name : string)
    (num_timesteps : Z) :
  let dict := callbacks_of callbacks in
  match last (filter (fun c => callback_name c = name) callbacks) with
  | Some c =>
      callback name num_timesteps dict
      = (Ok tt, <[name := callback_update c num_timesteps]> dict)
      ∧ ∀ other, other ≠ name ->
          (callback name num_timesteps dict).2 !! other = dict !! other
  | None =>
      callback name num_timesteps dict = (Raise KeyError, dict)
  end.
Proof.
  intros dict.
  pose proof (foldl_callbacks_lookup callbacks ∅ name) as Hlookup.
  fold (callbacks_of callbacks) in Hlookup. fold dict in Hlookup.
  unfold callback. cbn [bindM get]. rewrite Hlookup.
  destruct (last (filter _ callbacks)) as [c|].
  - cbn [modify snd]. split; [done|].
    intros other Hother. by rewrite lookup_insert_ne.
  - by rewrite lookup_empty.
Qed.

End Callbacks.

(** ** Rendering *)
Section Rendering.
Context `{!MjRender}.
Implicit Types st : viewers.

Ltac view_run :=
  repeat first
    [ progress cbn [bindM bind lift get modify ret fst snd on_viewer
                    viewer_render viewer_read_pixels log
                    viewer _viewers created calls] in *
    | match goal with
      | |- context [match ?x with _ => _ end] => destruct x eqn:?
      end ].

Lemma get_viewer_found mode st v :
  kept st mode = Some v ->
  _get_viewer mode st
  = (Ok (Some v), Viewers (Some v) (_viewers st) (created st) (calls st)).
Proof.
  unfold kept, _get_viewer. intros Hv.
  cbn [bindM get modify _viewers viewer]. by rewrite Hv.
Qed.

Lemma get_viewer_new mode st :
  kept st mode = None ->
  _get_viewer mode st
  = if String.eqb mode "human" then
      (Ok (Some (MjViewer (created st))),
       Viewers (Some (MjViewer (created st)))
         (<[mode := Some (MjViewer (created st))]> (_viewers st))
         (S (created st)) (calls st))
    else if is_array_mode mode then
      (Ok (Some (MjRenderContextOffscreen (created st) (-1))),
       Viewers (Some (MjRenderContextOffscreen (created st) (-1)))
         (<[mode := Some (MjRenderContextOffscreen (created st) (-1))]>
            (_viewers st))
         (S (created st)) (calls st))
    else
      (Ok None,
       Viewers None (<[mode := None]> (_viewers st)) (created st)
         (calls st)).
Proof.
  unfold kept, _get_viewer. intros Hv.
  cbn [bindM get modify _viewers viewer]. rewrite Hv.
  destruct (String.eqb mode "human"); [done|].
  by destruct (is_array_mode mode).
Qed.

Lemma kept_insert st mode v c n l :
  kept (Viewers c (<[mode := v]> (_viewers st)) n l) mode = v.
Proof. unfold kept. cbn. by rewrite lookup_insert_eq. Qed.

Lemma kept_insert_ne st mode mode' v c n l :
  mode ≠ mode' ->
  kept (Viewers c (<[mode := v]> (_viewers st)) n l) mode' = kept st mode'.
Proof. intros Hne. unfold kept. cbn. by rewrite lookup_insert_ne. Qed.


(** In the three modes a viewer is returned, and it is kept. *)
Lemma get_viewer_some mode st :
  mode = "human" ∨ is_array_mode mode = true ->
  ∃ v maps n,
    _get_viewer mode st = (Ok (Some v), Viewers (Some v) maps n (calls st))
    ∧ maps !! mode = Some (Some v).
Proof.
  intros Hmode. destruct (kept st mode) as [v|] eqn:Hkept.
  - exists v, (_viewers st), (created st).
    split; [by apply get_viewer_found|].
    unfold kept in Hkept. destruct (_viewers st !! mode) as [[v'|]|]; cbn in *;
      congruence.
  - rewrite (get_viewer_new _ _ Hkept).
    destruct (String.eqb mode "human") eqn:Hhuman.
    { do 3 eexists. split; [done|]. by rewrite lookup_insert_eq. }
    destruct Hmode as [->|Harray]; [done|]. rewrite Harray.
    do 3 eexists. split; [done|]. by rewrite lookup_insert_eq.
Qed.

Lemma get_viewer_kept mode v c maps n l :
  maps !! mode = Some (Some v) ->
  _get_viewer mode (Viewers c maps n l) = (Ok (Some v), Viewers (Some v) maps n l).
Proof.
  intros Hv. rewrite (get_viewer_found mode _ v); [done|].
  unfold kept. cbn. by rewrite Hv.
Qed.

(** X17 (render, lines 208-235).  In the modes [rgb_array] and
    [depth_array], [render] raises [ValueError] when both a camera id and a
    camera name are given, before any viewer is made or called.  Otherwise
    it returns an image: the viewer of the mode renders the frame with the
    camera given by id, or else found by name in the model ([track] when
    none is given, and no camera when the model has no such name), and the
    pixels read are returned with their rows reversed.  For [depth_array]
    the viewer renders a second time, without a camera, before the depth is
    read. *)
Theorem render_array_modes (m : mjModel) (width height : nat)
    (camera_id : option Z) (camera_name : option string) st :
  let size := Some (width, height) in
  let camera := camera_of m camera_id camera_name in
  (camera_id ≠ None -> camera_name ≠ None ->
   render m "rgb_array" width height camera_id camera_name st
   = (Raise ValueError, st)
   ∧ render m "depth_array" width height camera_id camera_name st
     = (Raise ValueError, st))
  ∧ (¬ (camera_id ≠ None ∧ camera_name ≠ None) ->
     (∃ v maps n,
        _get_viewer "rgb_array" st
        = (Ok (Some v), Viewers (Some v) maps n (calls st))
        ∧ let log := ReadPixels v width height false
                     :: Render v size camera :: calls st in
          render m "rgb_array" width height camera_id camera_name st
          = (Ok (Some (RGB (reverse (read_pixels log width height).1))),
             Viewers (Some v) maps n log))
     ∧ (∃ v maps n,
          _get_viewer "depth_array" st
          = (Ok (Some v), Viewers (Some v) maps n (calls st))
          ∧ let log := ReadPixels v width height true
                       :: Render v size None
                       :: Render v size camera :: calls st in
            render m "depth_array" width height camera_id camera_name st
            = (Ok (Some (Depth (reverse (read_pixels log width height).2))),
               Viewers (Some v) maps n log))).
Proof.
  intros size camera. split.
  - intros Hid Hname. unfold render. cbn [is_array_mode String.eqb orb].
    rewrite !bool_decide_eq_true_2 by done. done.
  - intros Hboth. subst camera.
    destruct camera_id as [id|], camera_name as [name|];
      [destruct Hboth; done|..].
    all: split.
    all: match goal with
         | |- context [_get_viewer ?mode ?s] =>
             destruct (get_viewer_some mode s) as (v & maps & n & Hget & Hv);
               [by right|];
             exists v, maps, n; split; [done|]
         end.
    all: cbn zeta; unfold render.
    all: cbn [is_array_mode String.eqb orb Ascii.eqb Bool.eqb].
    all: repeat first [ rewrite bool_decide_eq_true_2 by naive_solver
                      | rewrite bool_decide_eq_false_2 by naive_solver ].
    all: cbn [andb camera_of].
    all: unfold bindM; rewrite Hget.
    all: cbn [on_viewer viewer_render viewer_read_pixels log modify get ret
              lift].
    all: cbn [viewer _viewers created calls].
    all: rewrite (get_viewer_kept _ v) by done.
    all: cbn [on_viewer viewer_render viewer_read_pixels log modify get ret
              lift].
    all: cbn [viewer _viewers created calls].
    all: try reflexivity.
    all: rewrite (get_viewer_kept _ v) by done.
    all: cbn [on_viewer viewer_render viewer_read_pixels log modify get ret
              lift].
    all: cbn [viewer _viewers created calls].
    all: reflexivity.
Qed.

(** X18 (render, lines 208-237).  In the mode [human] the size and the
    camera arguments are not read: the window renders, nothing is returned,
    and giving both a camera id and a camera name is no error.  In a mode
    other than [human], [rgb_array] and [depth_array], [render] does
    nothing at all: it returns [None] and no viewer is looked up, made or
    called. *)
Theorem render_other_modes (m : mjModel) (mode : string) (width height : nat)
    (camera_id : option Z) (camera_name : option string) st :
  (∃ v maps n,
     _get_viewer "human" st
     = (Ok (Some v), Viewers (Some v) maps n (calls st))
     ∧ render m "human" width height camera_id camera_name st
       = (Ok None, Viewers (Some v) maps n (Render v None None :: calls st)))
  ∧ (mode ≠ "human" -> mode ≠ "rgb_array" -> mode ≠ "depth_array" ->
     render m mode width height camera_id camera_name st = (Ok None, st)).
Proof.
  split.
  - destruct (get_viewer_some "human" st) as (v & maps & n & Hget & Hv);
      [by left|].
    exists v, maps, n. split; [done|]. unfold render.
    cbn [is_array_mode String.eqb orb Ascii.eqb Bool.eqb].
    unfold bindM. cbn [ret]. rewrite Hget. reflexivity.
  - intros Hhuman Hrgb Hdepth. unfold render, is_array_mode.
    apply String.eqb_neq in Hhuman, Hrgb, Hdepth.
    rewrite Hhuman, Hrgb, Hdepth. reflexivity.
Qed.

Lemma counted_ext st st' :
  _viewers st' = _viewers st -> created st' = created st ->
  viewers_counted st -> viewers_counted st'.
Proof.
  unfold viewers_counted, kept. intros -> ->. done.
Qed.

Lemma get_viewer_counted mode st :
  viewers_counted st -> viewers_counted (_get_viewer mode st).2.
Proof.
  intros [Hn Hmodes]. destruct (kept st mode) as [v|] eqn:Hkept.
  { rewrite (get_viewer_found _ _ _ Hkept). by split. }
  rewrite (get_viewer_new _ _ Hkept).
  assert (∀ v c n l mode',
            kept (Viewers c (<[mode := v]> (_viewers st)) n l) mode'
            = if decide (mode = mode') then v else kept st mode') as Hins.
  { intros v c n l mode'. case_decide as Heq.
    - subst mode'. apply kept_insert.
    - by apply kept_insert_ne. }
  destruct (String.eqb mode "human") eqn:Hhuman;
    [|destruct (is_array_mode mode) eqn:Harray]; cbn [snd].
  - apply String.eqb_eq in Hhuman. subst mode.
    split.
    + rewrite !Hins. cbn [created]. rewrite Hkept in Hn.
      repeat case_decide; try done. cbn [count] in *. lia.
    + intros mode' v. rewrite Hins. case_decide; [by left; subst|].
      apply Hmodes.
  - unfold is_array_mode in Harray. apply orb_true_iff in Harray.
    destruct Harray as [->%String.eqb_eq | ->%String.eqb_eq].
    + split.
      * rewrite !Hins. cbn [created]. rewrite Hkept in Hn.
        repeat case_decide; try done. cbn [count] in *. lia.
      * intros mode' v. rewrite Hins. case_decide; [subst; by right; left|].
        apply Hmodes.
    + split.
      * rewrite !Hins. cbn [created]. rewrite Hkept in Hn.
        repeat case_decide; try done. cbn [count] in *. lia.
      * intros mode' v. rewrite Hins. case_decide; [subst; by right; right|].
        apply Hmodes.
  - unfold is_array_mode in Harray. apply orb_false_iff in Harray.
    destruct Harray as [Hrgb%String.eqb_neq Hdepth%String.eqb_neq].
    apply String.eqb_neq in Hhuman.
    split.
    + rewrite !Hins. cbn [created]. by repeat case_decide.
    + intros mode' v. rewrite Hins. case_decide; [done|]. apply Hmodes.
Qed.

(** The viewers that [render] leaves are those of the environment, or those
    that [_get_viewer] leaves. *)
Lemma render_viewers m mode width height camera_id camera_name st :
  let st' := (render m mode width height camera_id camera_name st).2 in
  (_viewers st' = _viewers st ∧ created st' = created st)
  ∨ (_viewers st' = _viewers (_get_viewer mode st).2
     ∧ created st' = created (_get_viewer mode st).2).
Proof.
  cbn zeta.
  destruct (decide (mode = "human")) as [->|Hhuman].
  { right. destruct (get_viewer_some "human" st)
      as (v & maps & n & Hget & Hv); [by left|].
    unfold render. cbn [is_array_mode String.eqb orb Ascii.eqb Bool.eqb].
    unfold bindM. cbn [ret]. by rewrite Hget. }
  destruct (decide (mode = "rgb_array")) as [->|Hrgb];
    [|destruct (decide (mode = "depth_array")) as [->|Hdepth]].
  all: try (left; unfold render, is_array_mode;
            apply String.eqb_neq in Hhuman, Hrgb, Hdepth;
            by rewrite Hhuman, Hrgb, Hdepth).
  all: destruct (decide (camera_id ≠ None ∧ camera_name ≠ None))
         as [[Hid Hname]|Hboth];
    [left; unfold render; cbn [is_array_mode String.eqb orb];
     by rewrite !bool_decide_eq_true_2 by done|].
  all: right.
  all: match goal with
       | |- context [_get_viewer ?mode ?s] =>
           destruct (get_viewer_some mode s) as (v & maps & n & Hget & Hv);
             [by right|]
       end.
  all: destruct camera_id as [id|], camera_name as [name|];
    [destruct Hboth; done|..].
  all: unfold render.
  all: cbn [is_array_mode String.eqb orb Ascii.eqb Bool.eqb].
  all: repeat first [ rewrite bool_decide_eq_true_2 by naive_solver
                    | rewrite bool_decide_eq_false_2 by naive_solver ].
  all: cbn [andb].
  all: unfold bindM; rewrite Hget.
  all: cbn [on_viewer viewer_render viewer_read_pixels log modify get ret
            lift].
  all: cbn [viewer _viewers created calls].
  all: rewrite (get_viewer_kept _ v) by done.
  all: cbn [on_viewer viewer_render viewer_read_pixels log modify get ret
            lift].
  all: cbn [viewer _viewers created calls].
  all: try done.
  all: rewrite (get_viewer_kept _ v) by done.
  all: cbn [on_viewer viewer_render viewer_read_pixels log modify get ret
            lift].
  all: cbn [viewer _viewers created calls].
  all: done.
Qed.

(** X19 (render and _get_viewer, lines 208-248; __init__, lines 69-70).
    From construction on, through whatever calls of [render] and
    [_get_viewer], every viewer that was created is the one kept for one of
    the modes [human], [rgb_array] and [depth_array]: at most three are
    ever created, one per mode. *)
Theorem at_most_three_viewers :
  viewers_counted no_viewers
  ∧ (∀ st mode,
       viewers_counted st -> viewers_counted (_get_viewer mode st).2)
  ∧ (∀ st m mode width height camera_id camera_name,
       viewers_counted st ->
       viewers_counted
         (render m mode width height camera_id camera_name st).2)
  ∧ (∀ st, viewers_counted st -> (created st ≤ 3)%nat).
Proof.
  split_and!.
  - split; [done|]. intros mode v. unfold kept, no_viewers. cbn.
    by rewrite lookup_empty.
  - intros st mode. apply get_viewer_counted.
  - intros st m mode width height camera_id camera_name Hst.
    destruct (render_viewers m mode width height camera_id camera_name st)
      as [[Hmaps Hn]|[Hmaps Hn]].
    + by apply (counted_ext st).
    + apply (counted_ext (_get_viewer mode st).2); [done..|].
      by apply get_viewer_counted.
  - intros st [Hn _]. rewrite Hn.
    destruct (kept st "human"), (kept st "rgb_array"),
      (kept st "depth_array"); cbn; lia.
Qed.

End Rendering.

(** ** The further properties on the samples *)
Import Samples.

(** X1 on the one-joint sample: two entries for one actuator. *)
Lemma set_ctrl_rejects_wrong_length_witness :
  length (ctrl (data one_joint)) = length (act (data one_joint))
  ∧ length [0.1; 0.2] ≠ length (act (data one_joint))
  ∧ set_ctrl [0.1; 0.2] one_joint = (Raise ValueError, one_joint).
Proof.
  split; [reflexivity|]. split; [cbn; lia|].
  apply set_ctrl_rejects_wrong_length; cbn; lia.
Defined.

(** X2 on the one-joint sample: activation [0.5], action [0.7]. *)
Lemma set_ctrl_broadcasts_single_entry_witness :
  length (ctrl (data one_joint)) = length (act (data one_joint))
  ∧ ctrl (data (snd (set_ctrl [0.7] one_joint)))
    = [Np.clip1 0 1 (0.5 + 0.7)].
Proof.
  split; [reflexivity|].
  exact (set_ctrl_broadcasts_single_entry one_joint 0.7 eq_refl).
Defined.

(** X3 on the patched sample. *)
Lemma set_ctrl_last_call_wins_witness :
  length (ctrl (data patched)) = length (act (data patched))
  ∧ length [0.1] = length (act (data patched))
  ∧ length [0.2] = length (act (data patched))
  ∧ set_ctrl [0.2] (snd (set_ctrl [0.1] patched)) = set_ctrl [0.2] patched.
Proof.
  split_and!; [reflexivity..|].
  exact (set_ctrl_last_call_wins patched [0.1] [0.2] eq_refl eq_refl eq_refl).
Defined.

Lemma unpatched_names :
  Some "shoulder_elv" ∉ joint_names (model unpatched).
Proof.
  cbn. intros [Heq|Hnil]%elem_of_cons; [done|].
  by apply elem_of_nil in Hnil.
Qed.

(** X4 on a patch variant without the joint [shoulder_elv]. *)
Lemma set_ctrl_missing_joint_after_write_witness :
  is_patch (shoulder_variant unpatched) = true
  ∧ (Some "shoulder_elv" ∉ joint_names (model unpatched))
  ∧ fst (set_ctrl [0.7] unpatched) = Raise ValueError
  ∧ ctrl (data (snd (set_ctrl [0.7] unpatched))) = [Np.clip1 0 1 (0.5 + 0.7)]
  ∧ model (snd (set_ctrl [0.7] unpatched)) = model unpatched.
Proof.
  split; [reflexivity|]. split; [exact unpatched_names|].
  rewrite (set_ctrl_missing_joint_after_write unpatched [0.7] eq_refl
             eq_refl eq_refl unpatched_names).
  by split_and!.
Defined.

Lemma init_welded_freq :
  ∃ self : FixedEye.t nat,
    init "original" no_kwargs (constant_rng 0) welded
      (arm_data ["elv_angle"; "shoulder_elv"]) = Ok self
    ∧ action_sample_freq self = 10
    ∧ frame_skip self = 50%Z.
Proof. unfold welded. rewrite init_arm. by eexists. Qed.

(** X5 on the welded sample: 50 steps of 2 ms in a period of 0.1 s. *)
Lemma init_frame_skip_fits_period_witness :
  ∃ self : FixedEye.t nat,
    init "original" no_kwargs (constant_rng 0) welded
      (arm_data ["elv_angle"; "shoulder_elv"]) = Ok self
    ∧ 0 < action_sample_freq self
    ∧ (1 ≤ frame_skip self)%Z
    ∧ action_sample_freq self <= 500
    ∧ IZR (frame_skip self) * timestep self <= 1 / action_sample_freq self.
Proof.
  destruct init_welded_freq as (self & Hinit & Hfreq & _). exists self.
  assert (0 < action_sample_freq self) as Hpos by (rewrite Hfreq; lra).
  destruct (init_frame_skip_fits_period _ _ _ _ _ _ Hinit Hpos)
    as (_ & _ & Hskip & Hmax & Hfit & _).
  by split_and!.
Defined.

(** X6 on the one-joint arm: the frequencies 0 and 1000. *)
Lemma init_sample_freq_out_of_range_witness :
  init "original" (sampled_at 0) (constant_rng 0) (arm ["elv_angle"] [])
    (arm_data ["elv_angle"]) = Raise ZeroDivisionError
  ∧ init "original" (sampled_at 1000) (constant_rng 0) (arm ["elv_angle"] [])
      (arm_data ["elv_angle"]) = Raise ZeroDivisionError.
Proof.
  split.
  - destruct (init_sample_freq_out_of_range "original" (sampled_at 0)
                (constant_rng 0) (arm ["elv_angle"] [])
                (arm_data ["elv_angle"])) as [Hzero _].
    apply Hzero. reflexivity.
  - destruct (init_sample_freq_out_of_range "original" (sampled_at 1000)
                (constant_rng 0) (arm ["elv_angle"] [])
                (arm_data ["elv_angle"])) as [_ Hfast].
    apply Hfast; [cbn; lra|reflexivity].
Defined.

(** X7 on the welded sample: [for_testing] is camera 0. *)
Lemma init_moves_testing_camera_only_witness :
  ∃ self : FixedEye.t nat,
    init "original" no_kwargs (constant_rng 0) welded
      (arm_data ["elv_angle"; "shoulder_elv"]) = Ok self
    ∧ cam_pos (model self) = [(1.5, -1.5, 0.9); (0, 0, 0)]
    ∧ data self = arm_data ["elv_angle"; "shoulder_elv"].
Proof.
  destruct init_welded as [self Hinit]. exists self.
  destruct (init_moves_testing_camera_only _ _ _ _ _ _ Hinit)
    as (c & Hc & _ & _ & Hm & Hd & _).
  split; [exact Hinit|]. split; [|exact Hd].
  rewrite Hm. destruct c as [|[|c]]; [reflexivity|discriminate..].
Defined.

Lemma blind_cameras : Some "for_testing" ∉ camera_names blind.
Proof.
  cbn. intros [Heq|Hnil]%elem_of_cons; [done|].
  by apply elem_of_nil in Hnil.
Qed.

(** X8 on an arm without the camera. *)
Lemma init_needs_testing_camera_witness :
  (Some "for_testing" ∉ camera_names blind)
  ∧ init (E:=nat) "original" no_kwargs (constant_rng 0) blind
      (arm_data ["elv_angle"]) = Raise KeyError.
Proof.
  split; [exact blind_cameras|].
  destruct (init_needs_testing_camera (E:=nat) "original" no_kwargs
              (constant_rng 0) blind (arm_data ["elv_angle"]) blind_cameras)
    as [_ Hkey].
  apply (Hkey 50%Z None 10%Z).
  - unfold frame_skip_of, no_kwargs. cbn [kwargs_get kw_action_sample_freq].
    rewrite decide_False by lra.
    replace (1 / (0.002 * 10)) with (IZR 50) by lra. by rewrite int_IZR.
  - reflexivity.
  - unfold frames_per_second_of. cbn [opt_timestep blind].
    rewrite decide_False by lra.
    replace (1 / (0.002 * 50)) with (IZR 10) by lra.
    by rewrite np_round_IZR, int_IZR.
Defined.

(** X9 on the one-joint sample: a reset, then a control. *)
Lemma methods_keep_setup_witness :
  reaches one_joint (set_ctrl [0.7] (reset one_joint).2).2
  ∧ independent_joints (set_ctrl [0.7] (reset one_joint).2).2
    = independent_joints one_joint
  ∧ dt (set_ctrl [0.7] (reset one_joint).2).2 = dt one_joint.
Proof.
  assert (reaches one_joint (set_ctrl [0.7] (reset one_joint).2).2) as Hrun
    by (apply reaches_set_ctrl, reaches_reset, reaches_here).
  destruct (methods_keep_setup _ _ Hrun)
    as (_ & _ & _ & _ & _ & Hind & _ & _ & _ & _ & _ & _ & _ & _ & _ & _ & _
        & _ & _ & _ & _ & Hdt).
  by split_and!.
Defined.

Lemma init_coupled_variant :
  ∃ self : FixedEye.t nat,
    init "patch-v1" no_kwargs (constant_rng 0) coupled
      (arm_data shoulder_names) = Ok self
    ∧ (set_ctrl [0.1; 0.2] self).1 = Raise ValueError.
Proof.
  unfold coupled. rewrite init_arm. fold coupled.
  rewrite resolve_shoulder_coupled. cbn [bind]. eexists. split; [done|].
  reflexivity.
Qed.

(** X10 on the coupled sample: an action of two entries for one muscle. *)
Lemma set_ctrl_exceptions_witness :
  ∃ self : FixedEye.t nat,
    init "patch-v1" no_kwargs (constant_rng 0) coupled
      (arm_data shoulder_names) = Ok self
    ∧ reaches self self
    ∧ (set_ctrl [0.1; 0.2] self).1 = Raise ValueError
    ∧ ∃ k, eq_ID_shoulder1_r2 self = Some k
           ∧ (k < length (eqs (model self)))%nat.
Proof.
  destruct init_coupled_variant as (self & Hinit & Hraise). exists self.
  destruct (set_ctrl_exceptions _ _ _ _ _ _ _ _ _ Hinit (reaches_here self)
              Hraise) as [_ Hcached].
  split_and!; [exact Hinit|apply reaches_here|exact Hraise|].
  exact (Hcached eq_refl).
Defined.

Lemma watching_observation :
  ∃ obs, get_observation watching = Ok obs.
Proof.
  apply get_observation_total.
  destruct (sample_ready "elv_angle")
    as (Hidx & Hrng & Hqp & Hqv & Hqa & Hact & Hgeom & _).
  split_and!; try done. intros _ d. by eexists.
Qed.

(** X11 on a sample that renders two rows of one black pixel. *)
Lemma visual_is_flipped_frame_with_depth_witness :
  render_observations watching = true
  ∧ ∃ obs image row,
      get_observation watching = Ok obs
      ∧ visual obs = Some image
      ∧ image !! 0%nat = Some row
      ∧ row !! 0%nat
        = Some [normalise (0 / 255.0); normalise (0 / 255.0);
                normalise (0 / 255.0); normalise 0].
Proof.
  split; [reflexivity|].
  destruct watching_observation as [obs Hobs].
  destruct (visual_is_flipped_frame_with_depth watching obs Hobs eq_refl)
    as (rgb & depth & image & Hframe & Hvis & _ & _ & Hpix).
  injection Hframe as <- <-.
  destruct (Hpix 0%nat 0%nat [(0, 0, 0)] [0] 0 0 0 0) as (row & Hrow & Hp);
    [cbn; lia|reflexivity..|].
  by exists obs, image, row.
Defined.

(** X13 on the one-joint sample, with the limits [0] and [1]. *)
Lemma generate_sine_wave_within_limits_witness :
  not_constant (Tracking.raw_sine one_joint 5 1 5).1
  ∧ ∃ sine,
      (Tracking.generate_sine_wave (0, 1) 5 1 5 one_joint).1 = Ok sine
      ∧ Forall (fun x => Rmin 0 1 <= x <= Rmax 0 1) sine.
Proof.
  split; [exact one_joint_raw_not_constant|].
  destruct (generate_sine_wave_returns one_joint (0, 1) 5 1 5)
    as (sine & Hsine & _).
  exists sine. split; [exact Hsine|].
  exact (generate_sine_wave_within_limits one_joint (0, 1) 5 1 5 sine Hsine
           one_joint_raw_not_constant).
Defined.

(** X14 on the one-joint sample: fewer than two joints, so the fingertip
    alone. *)
Lemma grab_proprioception_of_observation_witness :
  render_observations one_joint = false
  ∧ ∃ obs finger_position,
      get_observation one_joint = Ok obs
      ∧ grab_proprioception one_joint = Ok finger_position
      ∧ length finger_position = 3%nat.
Proof.
  split; [reflexivity|].
  destruct (grab_proprioception_of_observation one_joint) as [Hgrab _].
  destruct (get_observation_total one_joint one_joint_ready) as [obs Hobs].
  destruct (Hgrab obs Hobs)
    as (qp & qv & qa & xyz & a & _ & Lqp & Lqv & Lqa & Lxyz & Hp & Hlen).
  exists obs, (drop 2 qp ++ drop 2 qv ++ drop 2 qa ++ xyz).
  split; [exact Hobs|]. split; [exact Hp|]. rewrite Hlen.
  unfold one_joint, Sample.env. cbn [independent_joints].
  by rewrite sample_independent.
Defined.

Lemma keepers_eval :
  last (filter (fun c : string * Z => callback_name c = "eval") keepers)
  = Some ("eval", 5%Z).
Proof. reflexivity. Qed.

Lemma keepers_log :
  last (filter (fun c : string * Z => callback_name c = "log") keepers)
  = None.
Proof. reflexivity. Qed.

(** X15 on three callbacks, two of them named [eval]: the later one is
    updated, and no callback is named [log]. *)
Lemma callback_updates_last_of_name_witness :
  callback "eval" 7 (callbacks_of keepers)
  = (Ok tt, <["eval" := ("eval", 7%Z)]> (callbacks_of keepers))
  ∧ callback "log" 7 (callbacks_of keepers)
    = (Raise KeyError, callbacks_of keepers).
Proof.
  pose proof (callback_updates_last_of_name keepers "eval" 7) as Heval.
  pose proof (callback_updates_last_of_name keepers "log" 7) as Hlog.
  cbn zeta in Heval, Hlog. rewrite keepers_eval in Heval.
  rewrite keepers_log in Hlog. destruct Heval as [Heval _].
  split; [exact Heval|exact Hlog].
Defined.


(** X17 on the sample arm, which has no camera named [track]: camera 1 by
    id, and an id together with a name. *)
Lemma render_array_modes_witness :
  render (arm ["elv_angle"] []) "rgb_array" 4 2 (Some 1%Z)
    (Some "oculomotor") no_viewers
  = (Raise ValueError, no_viewers)
  ∧ ∃ v maps n,
      render (arm ["elv_angle"] []) "depth_array" 4 2 (Some 1%Z) None
        no_viewers
      = (Ok (Some (Depth (replicate 2 (replicate 4 0)))),
         Viewers (Some v) maps n
           [ReadPixels v 4 2 true; Render v (Some (4, 2)%nat) None;
            Render v (Some (4, 2)%nat) (Some 1%Z)]).
Proof.
  destruct (render_array_modes (arm ["elv_angle"] []) 4 2 (Some 1%Z)
              (Some "oculomotor") no_viewers) as [Hboth _].
  destruct (render_array_modes (arm ["elv_angle"] []) 4 2 (Some 1%Z) None
              no_viewers) as [_ Hone].
  split; [apply Hboth; done|].
  destruct Hone as [_ (v & maps & n & _ & Hdepth)]; [by intros [_ ?]|].
  exists v, maps, n. exact Hdepth.
Defined.

(** X18 after construction, for a mode that is none of the three. *)
Lemma render_other_modes_witness :
  render (arm ["elv_angle"] []) "ansi" 4 2 None None no_viewers
  = (Ok None, no_viewers).
Proof.
  destruct (render_other_modes (arm ["elv_angle"] []) "ansi" 4 2 None None
              no_viewers) as [_ Hother].
  apply Hother; done.
Defined.

(** X19 after construction: the three modes rendered one after the
    other. *)
Lemma at_most_three_viewers_witness :
  viewers_counted no_viewers
  ∧ (created
       (render (arm ["elv_angle"] []) "human" 4 2 None None
          (render (arm ["elv_angle"] []) "depth_array" 4 2 None None
             (render (arm ["elv_angle"] []) "rgb_array" 4 2 None None
                no_viewers).2).2).2 ≤ 3)%nat.
Proof.
  destruct at_most_three_viewers as (Hstart & _ & Hrender & Hmost).
  split; [exact Hstart|].
  apply Hmost. do 3 apply Hrender. exact Hstart.
Defined.
